(** * Derivative dynamic time warping (aeon/distances/_ddtw.py)

    A shallow embedding of the DDTW distance of aeon and the properties its
    specification states about it.

    Numbers.  The series hold floating-point values; they are idealised here
    as exact rationals ([Qc], the rationals in lowest terms, so that equal
    numbers are equal terms).  The cost matrix also holds [+inf], so its
    cells are extended costs ([ecost]).  Where a property depends on
    rounding, the derivative transform is also given over binary64 floats
    (module [F64]).

    Arrays.  A numpy array is its shape together with its indexing function.
    The shape is kept explicitly because numpy keeps it: slicing a series of
    two timepoints yields an array of shape (d, 0), which still has d rows. *)

From Stdlib Require Import QArith Qcanon List Lia Bool Arith ZArith.
From Stdlib Require SpecFloat.
Import ListNotations.

Set Implicit Arguments.

Local Open Scope nat_scope.

(** ** Numbers *)

Module Num.

Local Open Scope Qc_scope.

(** A float literal of the source, as an exact rational. *)
Definition lit (q : Q) : Qc := Q2Qc q.

(** An integer value of a series. *)
Definition of_Z (z : Z) : Qc := Q2Qc (inject_Z z).

Definition leb (a b : Qc) : bool := Qle_bool (this a) (this b).

Definition sqr (a : Qc) : Qc := a * a.

(** Extended costs: a finite value or [+inf] (numpy's [np.inf]). *)
Inductive ecost : Type :=
| Fin (q : Qc)
| Inf.

Definition is_finite (a : ecost) : bool :=
  match a with Fin _ => true | Inf => false end.

(** [a + b] on floats that may be [+inf]. *)
Definition eadd (a b : ecost) : ecost :=
  match a, b with
  | Fin p, Fin q => Fin (p + q)
  | _, _ => Inf
  end.

Definition eleb (a b : ecost) : bool :=
  match a, b with
  | _, Inf => true
  | Inf, Fin _ => false
  | Fin p, Fin q => leb p q
  end.

(** Python's [min(a, b)]: the first argument wins a tie. *)
Definition emin (a b : ecost) : ecost := if eleb a b then a else b.

(** Python's [min(a, b, c)]. *)
Definition emin3 (a b c : ecost) : ecost := emin (emin a b) c.

End Num.

Export Num.

(** ** numpy arrays *)

Module Np.

(** A 1-d array: [len] is [shape[0]]. *)
Record ndarray1 (A : Type) : Type := mk_ndarray1 {
  len : nat;
  at1 : nat -> A
}.

(** A 2-d array of shape [(shape0, shape1)]. *)
Record ndarray2 (A : Type) : Type := mk_ndarray2 {
  shape0 : nat;
  shape1 : nat;
  at2 : nat -> nat -> A
}.

Definition shape {A} (a : ndarray2 A) : nat * nat := (shape0 a, shape1 a).

(** Two arrays are the same array when they have the same shape and the
    same value at every index inside it. *)
Definition eq1 {A} (a b : ndarray1 A) : Prop :=
  len a = len b /\ forall i, i < len a -> at1 a i = at1 b i.

Definition eq2 {A} (a b : ndarray2 A) : Prop :=
  shape a = shape b /\
  forall i j, i < shape0 a -> j < shape1 a -> at2 a i j = at2 b i j.

(** *** Building arrays from Python literals, and reading them back *)

Definition of_list {A} (dflt : A) (l : list A) : ndarray1 A :=
  {| len := length l; at1 := fun i => nth i l dflt |}.

Definition to_list {A} (a : ndarray1 A) : list A :=
  map (at1 a) (seq 0 (len a)).

(** [np.array([[...], [...]])] for rows of one length. *)
Definition of_rows {A} (dflt : A) (rows : list (list A)) : ndarray2 A :=
  {| shape0 := length rows;
     shape1 := match rows with [] => 0 | r :: _ => length r end;
     at2 := fun i j => nth j (nth i rows []) dflt |}.

Definition to_rows {A} (a : ndarray2 A) : list (list A) :=
  map (fun i => map (at2 a i) (seq 0 (shape1 a))) (seq 0 (shape0 a)).

(** *** Indexing and slicing *)

(** A slice bound [k] on an axis of length [n]: a negative bound counts
    from the end, and every bound is clipped to [0..n]. *)
Definition clip (k : Z) (n : nat) : nat :=
  if (k <? 0)%Z then Z.to_nat (k + Z.of_nat n) else Nat.min (Z.to_nat k) n.

Definition slice_start (lo : option Z) (n : nat) : nat :=
  match lo with None => 0 | Some k => clip k n end.

Definition slice_stop (hi : option Z) (n : nat) : nat :=
  match hi with None => n | Some k => clip k n end.

(** [a[lo:hi]] on a 1-d array. *)
Definition slice1 {A} (lo hi : option Z) (a : ndarray1 A) : ndarray1 A :=
  let s := slice_start lo (len a) in
  {| len := slice_stop hi (len a) - s; at1 := fun i => at1 a (s + i) |}.

(** [a[lo:hi]] on a 2-d array: a slice of the first axis. *)
Definition slice2 {A} (lo hi : option Z) (a : ndarray2 A) : ndarray2 A :=
  let s := slice_start lo (shape0 a) in
  {| shape0 := slice_stop hi (shape0 a) - s;
     shape1 := shape1 a;
     at2 := fun i j => at2 a (s + i) j |}.

(** [a.transpose()]: the identity on a 1-d array. *)
Definition transpose1 {A} (a : ndarray1 A) : ndarray1 A := a.

Definition transpose2 {A} (a : ndarray2 A) : ndarray2 A :=
  {| shape0 := shape1 a; shape1 := shape0 a; at2 := fun i j => at2 a j i |}.

(** [for val in X]: the rows of a 2-d array, as 1-d arrays. *)
Definition row {A} (a : ndarray2 A) (i : nat) : ndarray1 A :=
  {| len := shape1 a; at1 := at2 a i |}.

Definition rows {A} (a : ndarray2 A) : list (ndarray1 A) :=
  map (row a) (seq 0 (shape0 a)).

(** [np.array(l)] for a list of 1-d arrays of one length. *)
Definition array_of {A} (dflt : ndarray1 A) (l : list (ndarray1 A))
  : ndarray2 A :=
  {| shape0 := length l;
     shape1 := match l with [] => 0 | r :: _ => len r end;
     at2 := fun i j => at1 (nth i l dflt) j |}.

(** [a[-1, -1]]. *)
Definition last_cell {A} (a : ndarray2 A) : A :=
  at2 a (shape0 a - 1) (shape1 a - 1).

(** [a[i, j] = v]. *)
Definition set2 {A} (a : ndarray2 A) (i j : nat) (v : A) : ndarray2 A :=
  {| shape0 := shape0 a;
     shape1 := shape1 a;
     at2 := fun i' j' =>
              if (i' =? i) && (j' =? j) then v else at2 a i' j' |}.

(** [np.full((r, c), v)]. *)
Definition full {A} (r c : nat) (v : A) : ndarray2 A :=
  {| shape0 := r; shape1 := c; at2 := fun _ _ => v |}.

(** *** Arithmetic on arrays of one shape *)

Local Open Scope Qc_scope.

(** [c * a] *)
Definition scale1 (c : Qc) (a : ndarray1 Qc) : ndarray1 Qc :=
  {| len := len a; at1 := fun i => c * at1 a i |}.

Definition scale2 (c : Qc) (a : ndarray2 Qc) : ndarray2 Qc :=
  {| shape0 := shape0 a; shape1 := shape1 a;
     at2 := fun i j => c * at2 a i j |}.

(** [a + c] for a scalar [c] *)
Definition shift1 (a : ndarray1 Qc) (c : Qc) : ndarray1 Qc :=
  {| len := len a; at1 := fun i => at1 a i + c |}.

Definition shift2 (a : ndarray2 Qc) (c : Qc) : ndarray2 Qc :=
  {| shape0 := shape0 a; shape1 := shape1 a;
     at2 := fun i j => at2 a i j + c |}.

(** [a + b] and [a - b]; the operands have one shape wherever the source
    uses them, and the result has it. *)
Definition add1 (a b : ndarray1 Qc) : ndarray1 Qc :=
  {| len := len a; at1 := fun i => at1 a i + at1 b i |}.

Definition sub1 (a b : ndarray1 Qc) : ndarray1 Qc :=
  {| len := len a; at1 := fun i => at1 a i - at1 b i |}.

Definition add2 (a b : ndarray2 Qc) : ndarray2 Qc :=
  {| shape0 := shape0 a; shape1 := shape1 a;
     at2 := fun i j => at2 a i j + at2 b i j |}.

Definition sub2 (a b : ndarray2 Qc) : ndarray2 Qc :=
  {| shape0 := shape0 a; shape1 := shape1 a;
     at2 := fun i j => at2 a i j - at2 b i j |}.

End Np.

Export Np.

(** A series: a 2-d array of shape (d, m), d dimensions by m timepoints. *)
Definition series : Type := ndarray2 Qc.

Definition series_of (rows : list (list Z)) : series :=
  of_rows (of_Z 0) (map (map of_Z) rows).

(** ** The derivative transform *)

Section Derivative.

Local Open Scope Qc_scope.

(** [average_of_slope] on one row (a 1-d array), as
    [average_of_slope_transform] calls it. *)
Definition average_of_slope1 (q : ndarray1 Qc) : ndarray1 Qc :=
  let q := transpose1 q in
  let q2 :=
    sub1 (add1 (scale1 (lit 0.25) (slice1 (Some 2%Z) None q))
               (scale1 (lit 0.5) (slice1 (Some 1%Z) (Some (-1)%Z) q)))
         (scale1 (lit 0.75) (slice1 None (Some (-2)%Z) q)) in
  let q2 := transpose1 q2 in
  q2.

(** [average_of_slope] on a whole series (a 2-d array), as the factories
    call it: the transposition puts time on the first axis, which the
    slices then cut. *)
Definition average_of_slope (q : series) : series :=
  let q := transpose2 q in
  let q2 :=
    sub2 (add2 (scale2 (lit 0.25) (slice2 (Some 2%Z) None q))
               (scale2 (lit 0.5) (slice2 (Some 1%Z) (Some (-1)%Z) q)))
         (scale2 (lit 0.75) (slice2 None (Some (-2)%Z) q)) in
  let q2 := transpose2 q2 in
  q2.

Definition average_of_slope_transform (X : series) : series :=
  let derivative_X :=
    fold_left (fun acc val => acc ++ [average_of_slope1 val]) (rows X) [] in
  array_of (of_list (of_Z 0) []) derivative_X.

End Derivative.

(** ** The derivative transform in float64 *)

(** The same transform over IEEE binary64 numbers (53 bits of precision,
    exponents up to 1024, as specified by [SpecFloat]), every operation
    rounded to nearest even, in the order line 77 writes them.
    ([fastmath=True] on line 47 lets the compiler reorder the sum; the
    order of the source is one of the orders it may choose.) *)
Module F64.

Import SpecFloat.

Definition float : Type := spec_float.

Definition prec : Z := 53.
Definition emax : Z := 1024.

(** The float nearest to m * 2^e. *)
Definition f64 (m e : Z) : float := binary_normalize prec emax m e false.

Definition of_Z (z : Z) : float := f64 z 0.

Definition add : float -> float -> float := SFadd prec emax.
Definition sub : float -> float -> float := SFsub prec emax.
Definition mul : float -> float -> float := SFmul prec emax.

(** The literals 0.25, 0.5 and 0.75 of line 77, all three exact. *)
Definition lit_0_25 : float := f64 1 (-2).
Definition lit_0_5 : float := f64 1 (-1).
Definition lit_0_75 : float := f64 3 (-2).

(** [c * a] *)
Definition scale1 (c : float) (a : ndarray1 float) : ndarray1 float :=
  {| len := len a; at1 := fun i => mul c (at1 a i) |}.

(** [a + c] for a scalar [c] *)
Definition shift1 (a : ndarray1 float) (c : float) : ndarray1 float :=
  {| len := len a; at1 := fun i => add (at1 a i) c |}.

(** [a + b] and [a - b] on arrays of one shape *)
Definition add1 (a b : ndarray1 float) : ndarray1 float :=
  {| len := len a; at1 := fun i => add (at1 a i) (at1 b i) |}.

Definition sub1 (a b : ndarray1 float) : ndarray1 float :=
  {| len := len a; at1 := fun i => sub (at1 a i) (at1 b i) |}.

(** [average_of_slope] on a 1-d array of floats. *)
Definition average_of_slope1 (q : ndarray1 float) : ndarray1 float :=
  let q := transpose1 q in
  let q2 :=
    sub1 (add1 (scale1 lit_0_25 (slice1 (Some 2%Z) None q))
               (scale1 lit_0_5 (slice1 (Some 1%Z) (Some (-1)%Z) q)))
         (scale1 lit_0_75 (slice1 None (Some (-2)%Z) q)) in
  let q2 := transpose1 q2 in
  q2.

(** [np.array([...], dtype=float64)] of integer values. *)
Definition array (l : list Z) : ndarray1 float :=
  of_list (of_Z 0) (map of_Z l).

(** The series [0., 1., 2.] and the offset 2^53. *)
Definition series_012 : ndarray1 float := array [0; 1; 2]%Z.

Definition two_53 : float := of_Z (2 ^ 53).

End F64.

(** ** Effects: what a call allocates, and how it fails *)

Module Eff.

(** The two error classes of the specification. *)
Inductive error : Type :=
| ShapeError
| ValueError.

(** The allocations a call performs, in the order it performs them. *)
Inductive event : Type :=
| AllocBounding (rows cols : nat)    (* a bounding matrix was built *)
| AllocCost (rows cols : nat).       (* a cost matrix was allocated *)

(** A computation: the events it caused, and its error or its value. *)
Definition M (A : Type) : Type := list event * (error + A).

Definition ret {A} (a : A) : M A := ([], inr a).

Definition raise {A} (e : error) : M A := ([], inl e).

Definition emit (ev : event) : M unit := ([ev], inr tt).

Definition bind {A B} (m : M A) (k : A -> M B) : M B :=
  match m with
  | (t, inl e) => (t, inl e)
  | (t, inr a) => let (t', r) := k a in (t ++ t', r)
  end.

Definition fmap {A B} (f : A -> B) (m : M A) : M B :=
  bind m (fun a => ret (f a)).

Definition trace {A} (m : M A) : list event := fst m.

Definition outcome {A} (m : M A) : error + A := snd m.

Definition is_alloc_cost (ev : event) : bool :=
  match ev with AllocCost _ _ => true | AllocBounding _ _ => false end.

(** No cost matrix was allocated: no dynamic-programming work was begun. *)
Definition no_cost_alloc (t : list event) : Prop :=
  forallb (fun ev => negb (is_alloc_cost ev)) t = true.

(** Nothing at all was allocated. *)
Definition no_alloc (t : list event) : Prop := t = [].

End Eff.

Export Eff.

Notation "x <- c ;; k" := (bind c (fun x => k))
  (at level 61, c at next level, right associativity).
Notation "c ;;; k" := (bind c (fun _ => k))
  (at level 61, right associativity).

(** ** The cost matrix *)

Definition mask : Type := ndarray2 bool.
Definition grid : Type := ndarray2 ecost.

Section CostMatrix.

Local Open Scope Qc_scope.

(** Modelled from the spec: the pointwise distance of [_dtw_cost_matrix]
    (aeon/distances/_dtw.py is not among the sources).  Section 4.3: "sum
    of squared differences across dimensions", between timepoint [i] of
    [x] and timepoint [j] of [y]. *)
Definition pointwise_distance (x y : series) (i j : nat) : Qc :=
  fold_left (fun sum k => sum + sqr (at2 x k i - at2 y k j))
            (seq 0 (shape0 x)) (lit 0).

(** Modelled from the spec: the grid before the loops (section 4.3): all
    cells [+inf] but the origin, which is 0. *)
Definition init_grid (n1 n2 : nat) : grid :=
  set2 (full (n1 + 1) (n2 + 1) Inf) 0 0 (Fin (lit 0)).

(** Modelled from the spec: the body of the loops of [_dtw_cost_matrix]
    at grid cell (i, j), 1 <= i, 1 <= j (section 4.3). *)
Definition dtw_cell (x y : series) (bounding_matrix : mask)
           (i j : nat) (cost : grid) : grid :=
  if at2 bounding_matrix (i - 1) (j - 1) then
    set2 cost i j
         (eadd (Fin (pointwise_distance x y (i - 1) (j - 1)))
               (emin3 (at2 cost (i - 1) j)
                      (at2 cost i (j - 1))
                      (at2 cost (i - 1) (j - 1))))
  else cost.

(** for j = 1 .. n2 *)
Definition dtw_row (x y : series) (bounding_matrix : mask)
           (n2 i : nat) (cost : grid) : grid :=
  fold_left (fun cost j => dtw_cell x y bounding_matrix i j cost)
            (seq 1 n2) cost.

(** for i = 1 .. n1 *)
Definition dtw_fill (x y : series) (bounding_matrix : mask)
           (n1 n2 : nat) (cost : grid) : grid :=
  fold_left (fun cost i => dtw_row x y bounding_matrix n2 i cost)
            (seq 1 n1) cost.

(** Modelled from the spec: [_dtw_cost_matrix] of aeon/distances/_dtw.py,
    which is not among the sources.  Section 4.3: it fails with a
    ShapeError if d differs between the two derivative series and with a
    ValueError if either has fewer than 1 timepoint; section 7: all
    validation happens before any dynamic-programming work.  It then
    fills the (n1+1) x (n2+1) grid, border included. *)
Definition _dtw_cost_matrix (x y : series) (bounding_matrix : mask)
  : M grid :=
  if negb (shape0 x =? shape0 y) then raise ShapeError
  else if (shape1 x <? 1) || (shape1 y <? 1) then raise ValueError
  else
    let n1 := shape1 x in
    let n2 := shape1 y in
    emit (AllocCost (n1 + 1) (n2 + 1)) ;;;
    ret (dtw_fill x y bounding_matrix n1 n2 (init_grid n1 n2)).

End CostMatrix.

(** ** Path recovery *)

Section PathRecovery.

Definition cell : Type := nat * nat.

Definition cost_at (cost_matrix : grid) (c : cell) : ecost :=
  at2 cost_matrix (fst c) (snd c).

(** Modelled from the spec: the three predecessor cells of section 4.4,
    in the tie-break order it recommends (diagonal, then up, then left),
    those out of bounds left out. *)
Definition predecessors (i j : nat) : list cell :=
  (if (1 <=? i) && (1 <=? j) then [(i - 1, j - 1)] else []) ++
  (if 1 <=? i then [(i - 1, j)] else []) ++
  (if 1 <=? j then [(i, j - 1)] else []).

(** The first cell of minimum cost among [best :: rest]. *)
Fixpoint argmin (cost_matrix : grid) (best : cell) (rest : list cell)
  : cell :=
  match rest with
  | [] => best
  | c :: rest' =>
      if eleb (cost_at cost_matrix best) (cost_at cost_matrix c)
      then argmin cost_matrix best rest'
      else argmin cost_matrix c rest'
  end.

(** Modelled from the spec: one move of section 4.4, "to whichever of
    the three predecessor cells has the minimum cost among those that are
    finite and in-bounds".  There is no move ([None]) when no predecessor
    is finite: the spec does not say what happens then. *)
Definition next_cell (cost_matrix : grid) (i j : nat) : option cell :=
  match filter (fun c => is_finite (cost_at cost_matrix c))
               (predecessors i j) with
  | [] => None
  | c :: rest => Some (argmin cost_matrix c rest)
  end.

(** The loop of section 4.4 from cell (i, j): "Stop when (0,0) is
    reached.  Collect visited (i,j) pairs (shifted to 0-indexed series
    coordinates)".  [fuel] bounds the number of moves. *)
Fixpoint backtrack (fuel : nat) (cost_matrix : grid) (i j : nat)
         (visited : list cell) : option (list cell) :=
  if (i =? 0) && (j =? 0) then Some visited
  else
    match fuel with
    | 0 => None
    | S fuel' =>
        match next_cell cost_matrix i j with
        | None => None
        | Some (i', j') =>
            backtrack fuel' cost_matrix i' j' (visited ++ [(i - 1, j - 1)])
        end
    end.

(** Modelled from the spec: [compute_min_return_path] of
    aeon/distances/_alignment_paths.py, which is not among the sources
    (section 4.4).  It starts at the last cell (n1, n2) of the grid and
    returns the visited cells reversed.  Every move lowers i + j, so
    n1 + n2 moves are enough to reach the origin; the result is [None]
    only where a cell with no finite predecessor is met. *)
Definition compute_min_return_path (cost_matrix : grid)
  : option (list cell) :=
  let n1 := shape0 cost_matrix - 1 in
  let n2 := shape1 cost_matrix - 1 in
  match backtrack (n1 + n2) cost_matrix n1 n2 [] with
  | None => None
  | Some visited => Some (rev visited)
  end.

End PathRecovery.

(** ** The bounding matrix builder *)

(** [create_bounding_matrix] of aeon/distances/_bounding_matrix.py is an
    external collaborator (section 4.2): the distance treats its result as
    an opaque boolean grid.  The factories below take it as a parameter. *)
Definition builder : Type := nat -> nat -> option Qc -> mask.

(** The part of its contract that section 4.2 fixes: the mask has shape
    (m1, m2), and every cell is admissible when no window is given. *)
Definition builder_contract (create_bounding_matrix : builder) : Prop :=
  (forall m1 m2 w, shape (create_bounding_matrix m1 m2 w) = (m1, m2)) /\
  (forall m1 m2 i j, at2 (create_bounding_matrix m1 m2 None) i j = true).

Section SakoeChiba.

Local Open Scope Qc_scope.

Definition of_nat (n : nat) : Qc := of_Z (Z.of_nat n).

Definition qabs (a : Qc) : Qc := if leb (lit 0) a then a else - a.

(** Modelled from the spec: the band of section 4.2, "cell (i,j)
    admissible iff |i*(m2/m1) - j| <= w*max(m1,m2)", and every cell
    admissible when the window is absent.  The spec leaves the exact
    geometry to the external builder; this instance serves to run the
    factories on concrete series. *)
Definition sakoe_chiba : builder :=
  fun m1 m2 window =>
    {| shape0 := m1;
       shape1 := m2;
       at2 := fun i j =>
                match window with
                | None => true
                | Some w =>
                    leb (qabs (of_nat i * (of_nat m2 / of_nat m1) - of_nat j))
                        (w * of_nat (Nat.max m1 m2))
                end |}.

End SakoeChiba.

(** ** The distance facade: [_DdtwDistance] *)

Definition DerivativeCallable : Type := series -> series.

(** What the alignment-path callable returns: [(path, distance)], or
    [(path, distance, cost_matrix)] under [return_cost_matrix]. *)
Inductive path_result : Type :=
| PathDistance (path : option (list cell)) (distance : ecost)
| PathDistanceCost (path : option (list cell)) (distance : ecost)
                   (cost_matrix : grid).

Definition result_path (r : path_result) : option (list cell) :=
  match r with
  | PathDistance p _ => p
  | PathDistanceCost p _ _ => p
  end.

Definition result_distance (r : path_result) : ecost :=
  match r with
  | PathDistance _ d => d
  | PathDistanceCost _ d _ => d
  end.

Definition result_cost_matrix (r : path_result) : option grid :=
  match r with
  | PathDistance _ _ => None
  | PathDistanceCost _ _ c => Some c
  end.

Section Facade.

Variable create_bounding_matrix : builder.

(** The call [create_bounding_matrix(x_size, y_size, window)], which
    allocates the mask it returns. *)
Definition call_create_bounding_matrix (x_size y_size : nat)
           (window : option Qc) : M mask :=
  let bounding_matrix := create_bounding_matrix x_size y_size window in
  emit (AllocBounding (shape0 bounding_matrix) (shape1 bounding_matrix)) ;;;
  ret bounding_matrix.

(** The closure of [_distance_factory]; [compute_derivative] and
    [_bounding_matrix] are its captured variables. *)
Definition numba_ddtw_distance (compute_derivative : DerivativeCallable)
           (_bounding_matrix : mask) (_x _y : series) : M ecost :=
  let _x := compute_derivative _x in
  let _y := compute_derivative _y in
  cost_matrix <- _dtw_cost_matrix _x _y _bounding_matrix ;;
  ret (last_cell cost_matrix).

(** The two closures of [_distance_alignment_path_factory], selected by
    [return_cost_matrix]. *)
Definition numba_ddtw_distance_alignment_path (return_cost_matrix : bool)
           (compute_derivative : DerivativeCallable)
           (_bounding_matrix : mask) (_x _y : series) : M path_result :=
  if return_cost_matrix then
    let _x := compute_derivative _x in
    let _y := compute_derivative _y in
    cost_matrix <- _dtw_cost_matrix _x _y _bounding_matrix ;;
    let path := compute_min_return_path cost_matrix in
    ret (PathDistanceCost path (last_cell cost_matrix) cost_matrix)
  else
    let _x := compute_derivative _x in
    let _y := compute_derivative _y in
    cost_matrix <- _dtw_cost_matrix _x _y _bounding_matrix ;;
    let path := compute_min_return_path cost_matrix in
    ret (PathDistance path (last_cell cost_matrix)).

Definition _distance_alignment_path_factory (x y : series)
           (return_cost_matrix : bool) (window : option Qc)
           (compute_derivative : DerivativeCallable)
  : M (series -> series -> M path_result) :=
  _bounding_matrix <-
    call_create_bounding_matrix (shape1 x) (shape1 y) window ;;
  ret (numba_ddtw_distance_alignment_path
         return_cost_matrix compute_derivative _bounding_matrix).

Definition _distance_factory (x y : series) (window : option Qc)
           (compute_derivative : DerivativeCallable)
  : M (series -> series -> M ecost) :=
  _bounding_matrix <-
    call_create_bounding_matrix (shape1 x) (shape1 y) window ;;
  ret (numba_ddtw_distance compute_derivative _bounding_matrix).

(** Modelled from the spec: the entry point [distance(x, y, window?,
    derivative?)] of section 4.5.  Its code (the caller of the factory)
    is not among the sources: the factory is called on the two series,
    and the callable it returns on the same two series. *)
Definition distance (x y : series) (window : option Qc)
           (compute_derivative : DerivativeCallable) : M ecost :=
  numba_ddtw_distance <- _distance_factory x y window compute_derivative ;;
  numba_ddtw_distance x y.

(** Modelled from the spec: the entry point [distance_with_path(x, y,
    window?, derivative?, return_cost_matrix?)] of section 4.5, in the
    same way. *)
Definition distance_with_path (x y : series) (window : option Qc)
           (compute_derivative : DerivativeCallable)
           (return_cost_matrix : bool) : M path_result :=
  numba_ddtw_distance_alignment_path <-
    _distance_alignment_path_factory
      x y return_cost_matrix window compute_derivative ;;
  numba_ddtw_distance_alignment_path x y.

End Facade.

(** ** Definitions used to state the properties *)

(** A series of shape (d, m). *)
Definition has_shape (x : series) (d m : nat) : Prop := shape x = (d, m).

Section Recurrence.

Variables (x y : series) (bounding_matrix : mask).

(** The recurrence of section 4.3 written as a recursive function of the
    grid cell, to compare the loops of [_dtw_cost_matrix] with. *)
Fixpoint dtw_rec (i : nat) : nat -> ecost :=
  match i with
  | 0 => fun j => match j with 0 => Fin (lit 0) | S _ => Inf end
  | S i' =>
      fix row (j : nat) : ecost :=
        match j with
        | 0 => Inf
        | S j' =>
            if at2 bounding_matrix i' j' then
              eadd (Fin (pointwise_distance x y i' j'))
                   (emin3 (dtw_rec i' (S j')) (row j') (dtw_rec i' j'))
            else Inf
        end
  end.

End Recurrence.

(** A cost that is not negative ([+inf] is not). *)
Definition enonneg (a : ecost) : Prop :=
  match a with Fin q => (lit 0 <= q)%Qc | Inf => True end.

(** One step of an alignment path: i and j each stay or grow by one, and
    at least one of them grows. *)
Definition unit_step (a b : cell) : Prop :=
  (fst b = fst a \/ fst b = S (fst a)) /\
  (snd b = snd a \/ snd b = S (snd a)) /\
  b <> a.

(** Every two consecutive cells of [p] are related by [R]. *)
Fixpoint chain (R : cell -> cell -> Prop) (p : list cell) : Prop :=
  match p with
  | [] => True
  | a :: t => match t with [] => True | b :: _ => R a b end /\ chain R t
  end.

(** Every cell (i, j) with i < n1 and j < n2 is admissible. *)
Definition full_on (bounding_matrix : mask) (n1 n2 : nat) : Prop :=
  forall i j, i < n1 -> j < n2 -> at2 bounding_matrix i j = true.

(** The state of the loops of [_dtw_cost_matrix] when the cells up to
    (i, j), in row-major order, have been processed: those cells hold the
    value of the recurrence, the others still hold their initial value. *)
Definition processed (n2 i j a b : nat) : bool :=
  ((a <? i) || ((a =? i) && (b <=? j))) && (b <=? n2).

Definition filled (x y : series) (bounding_matrix : mask) (n1 n2 : nat)
           (i j : nat) (cost : grid) : Prop :=
  shape cost = (n1 + 1, n2 + 1) /\
  forall a b,
    at2 cost a b =
    if processed n2 i j a b then dtw_rec x y bounding_matrix a b
    else at2 (init_grid n1 n2) a b.

(** Series and results used as concrete inputs. *)
Definition series_12345 : series := series_of [[1; 2; 3; 4; 5]%Z].
Definition series_132557 : series := series_of [[1; 3; 2; 5; 5; 7]%Z].
Definition series_12 : series := series_of [[1; 2]%Z].
Definition series_2x5 : series :=
  series_of [[1; 2; 3; 4; 5]%Z; [5; 4; 3; 2; 1]%Z].
Definition series_11111 : series := series_of [[1; 1; 1; 1; 1]%Z].

(** Results with their numbers as plain fractions, to compare them with
    the values the specification quotes. *)
Definition show_series (x : series) : list (list Q) :=
  map (map this) (to_rows x).

Definition show_cost (a : ecost) : option Q :=
  match a with Fin q => Some (this q) | Inf => None end.

Definition show_distance (m : M ecost) : list event * (error + option Q) :=
  (trace m,
   match outcome m with inl e => inl e | inr a => inr (show_cost a) end).

Definition show_path_result (m : M path_result)
  : list event * (error + option (list cell) * option Q) :=
  (trace m,
   match outcome m with
   | inl e => inl e
   | inr r => inr (result_path r, show_cost (result_distance r))
   end).

(** Case analysis on the comparisons of natural numbers in the goal. *)
Ltac nat_cases :=
  repeat match goal with
    | |- context [?a <? ?b] => destruct (Nat.ltb_spec a b)
    | |- context [?a <=? ?b] => destruct (Nat.leb_spec a b)
    | |- context [?a =? ?b] => destruct (Nat.eqb_spec a b)
    end;
  cbn [andb orb negb]; try reflexivity; try lia.

(** * Properties *)

(** ** numpy slicing *)

Lemma clip_nonneg (k n : nat) : clip (Z.of_nat k) n = Nat.min k n.
Proof.
  unfold clip. destruct (Z.ltb_spec (Z.of_nat k) 0); [lia|].
  now rewrite Nat2Z.id.
Qed.

Lemma clip_neg (k n : nat) : 0 < k -> clip (- Z.of_nat k) n = n - k.
Proof.
  intro Hk. unfold clip. destruct (Z.ltb_spec (- Z.of_nat k) 0); lia.
Qed.

Lemma fold_left_snoc {A B} (f : A -> B) (l : list A) (acc : list B) :
  fold_left (fun acc v => acc ++ [f v]) l acc = acc ++ map f l.
Proof.
  revert acc. induction l as [|a l IH]; intro acc; simpl.
  - now rewrite app_nil_r.
  - rewrite IH, <- app_assoc. reflexivity.
Qed.

Lemma nth_map_seq {A} (f : nat -> A) (n i : nat) (dflt : A) :
  i < n -> nth i (map f (seq 0 n)) dflt = f i.
Proof.
  intro Hi.
  rewrite (nth_indep _ dflt (f 0)) by now rewrite length_map, length_seq.
  rewrite map_nth. now rewrite seq_nth.
Qed.

(** ** The derivative transform *)

Lemma average_of_slope_shape (q : series) :
  shape (average_of_slope q) = (shape0 q, shape1 q - 2).
Proof.
  unfold average_of_slope, shape. simpl.
  change 2%Z with (Z.of_nat 2). rewrite clip_nonneg.
  f_equal. lia.
Qed.

(** A series of fewer than 3 timepoints is not rejected by the transform:
    its derivative is an array of shape (d, 0). *)
Lemma average_of_slope_short (q : series) :
  shape1 q < 3 -> shape (average_of_slope q) = (shape0 q, 0).
Proof.
  intro Hm. rewrite average_of_slope_shape. f_equal. lia.
Qed.

Lemma average_of_slope_at (q : series) (r i : nat) :
  2 <= shape1 q ->
  at2 (average_of_slope q) r i =
  (lit 0.25 * at2 q r (i + 2) + lit 0.5 * at2 q r (i + 1)
   - lit 0.75 * at2 q r i)%Qc.
Proof.
  intro Hm. unfold average_of_slope. simpl.
  change 2%Z with (Z.of_nat 2). change 1%Z with (Z.of_nat 1).
  rewrite !clip_nonneg.
  replace (Nat.min 2 (shape1 q) + i) with (i + 2) by lia.
  replace (Nat.min 1 (shape1 q) + i) with (i + 1) by lia.
  reflexivity.
Qed.

Lemma average_of_slope1_len (q : ndarray1 Qc) :
  len (average_of_slope1 q) = len q - 2.
Proof.
  unfold average_of_slope1, transpose1. simpl.
  change 2%Z with (Z.of_nat 2). rewrite clip_nonneg. lia.
Qed.

Lemma average_of_slope1_at (q : ndarray1 Qc) (i : nat) :
  2 <= len q ->
  at1 (average_of_slope1 q) i =
  (lit 0.25 * at1 q (i + 2) + lit 0.5 * at1 q (i + 1)
   - lit 0.75 * at1 q i)%Qc.
Proof.
  intro Hm. unfold average_of_slope1, transpose1. simpl.
  change 2%Z with (Z.of_nat 2). change 1%Z with (Z.of_nat 1).
  rewrite !clip_nonneg.
  replace (Nat.min 2 (len q) + i) with (i + 2) by lia.
  replace (Nat.min 1 (len q) + i) with (i + 1) by lia.
  reflexivity.
Qed.

Lemma average_of_slope_transform_rows (X : series) :
  average_of_slope_transform X =
  array_of (of_list (of_Z 0) []) (map average_of_slope1 (rows X)).
Proof.
  unfold average_of_slope_transform. now rewrite fold_left_snoc.
Qed.

(** C1. For a series of shape (d, m), d >= 1 and m >= 3, the derivative
    transform, by [average_of_slope] on the whole series as by
    [average_of_slope_transform] row by row, has shape (d, m - 2), and in
    every row r its value for the interior index i of the original
    (1 <= i <= m - 2), found at index i - 1 of the result, is
    0.25 * q[i+1] + 0.5 * q[i] - 0.75 * q[i-1]. *)
Theorem average_of_slope_closed_form (x : series) (d m : nat) :
  has_shape x d m -> 1 <= d -> 3 <= m ->
  (shape (average_of_slope x) = (d, m - 2) /\
   forall r i, r < d -> 1 <= i <= m - 2 ->
     at2 (average_of_slope x) r (i - 1) =
     (lit 0.25 * at2 x r (i + 1) + lit 0.5 * at2 x r i
      - lit 0.75 * at2 x r (i - 1))%Qc) /\
  (shape (average_of_slope_transform x) = (d, m - 2) /\
   forall r i, r < d -> 1 <= i <= m - 2 ->
     at2 (average_of_slope_transform x) r (i - 1) =
     (lit 0.25 * at2 x r (i + 1) + lit 0.5 * at2 x r i
      - lit 0.75 * at2 x r (i - 1))%Qc).
Proof.
  unfold has_shape. intros Hs Hd Hm.
  unfold shape in Hs. injection Hs as Hs0 Hs1. split; split.
  - rewrite average_of_slope_shape. now rewrite Hs0, Hs1.
  - intros r i Hr Hi. rewrite average_of_slope_at by lia.
    replace (i - 1 + 2) with (i + 1) by lia.
    replace (i - 1 + 1) with i by lia. reflexivity.
  - rewrite average_of_slope_transform_rows. unfold rows, shape. simpl.
    rewrite !length_map, length_seq, Hs0. f_equal.
    destruct d as [|d']; [lia|]. simpl.
    change 2%Z with (Z.of_nat 2). rewrite clip_nonneg. lia.
  - intros r i Hr Hi. rewrite average_of_slope_transform_rows.
    unfold rows. cbn [array_of at2]. rewrite map_map.
    rewrite nth_map_seq by lia.
    rewrite average_of_slope1_at by (simpl; lia).
    cbn [row at1].
    replace (i - 1 + 2) with (i + 1) by lia.
    replace (i - 1 + 1) with i by lia. reflexivity.
Qed.

Lemma average_of_slope_closed_form_witness :
  has_shape series_12345 1 5 /\
  at2 (average_of_slope series_12345) 0 (2 - 1) =
  (lit 0.25 * at2 series_12345 0 (2 + 1) + lit 0.5 * at2 series_12345 0 2
   - lit 0.75 * at2 series_12345 0 (2 - 1))%Qc.
Proof.
  split; [reflexivity|].
  apply (average_of_slope_closed_form (x := series_12345) (d := 1) (m := 5));
    [reflexivity | lia | lia | lia | lia].
Defined.

Lemma slope_coefficients : (lit 0.75 = lit 0.25 + lit 0.5)%Qc.
Proof. apply Qc_is_canon. reflexivity. Qed.

Lemma slope_affine (a c q0 q1 q2 : Qc) :
  (lit 0.25 * (a * q2 + c) + lit 0.5 * (a * q1 + c)
   - lit 0.75 * (a * q0 + c)
   = a * (lit 0.25 * q2 + lit 0.5 * q1 - lit 0.75 * q0))%Qc.
Proof. rewrite slope_coefficients. ring. Qed.

(** C9, in exact arithmetic. When a*q + c and the formula of line 77 are
    evaluated without rounding, the default derivative transform forgets a
    constant offset and commutes with scaling: average_of_slope(a*q + c)
    is the array a*average_of_slope(q), for a row q (1-d) as for a whole
    series (2-d, row by row), for all scalars a and c.  No bound on the
    length is needed: both sides are empty for a series of fewer than 3
    points. *)
Theorem average_of_slope_affine (a c : Qc) :
  (forall q : ndarray1 Qc,
     eq1 (average_of_slope1 (shift1 (scale1 a q) c))
         (scale1 a (average_of_slope1 q))) /\
  (forall x : series,
     eq2 (average_of_slope (shift2 (scale2 a x) c))
         (scale2 a (average_of_slope x))).
Proof.
  split.
  - intro q. split.
    + cbn [scale1 len]. now rewrite !average_of_slope1_len.
    + intros i Hi. rewrite average_of_slope1_len in Hi. cbn [shift1 scale1 len] in Hi.
      cbn [scale1 at1]. rewrite !average_of_slope1_at by (cbn; lia).
      cbn [shift1 scale1 at1]. apply slope_affine.
  - intro x. split.
    + change (shape (scale2 a (average_of_slope x)))
        with (shape (average_of_slope x)).
      now rewrite !average_of_slope_shape.
    + intros i j _ Hj.
      assert (Hs := f_equal snd (average_of_slope_shape (shift2 (scale2 a x) c))).
      cbn [shape snd] in Hs. rewrite Hs in Hj.
      cbn [shift2 scale2 shape1] in Hj.
      cbn [scale2 at2]. rewrite !average_of_slope_at by (cbn; lia).
      cbn [shift2 scale2 at2]. apply slope_affine.
Qed.

(** C9 as stated fails in float64, the arithmetic of the code: for
    q = [0., 1., 2.], a = 1 and c = 2^53 the series a*q + c is
    [2^53, 2^53, 2^53 + 2] after rounding and its derivative is [0.], while
    a*average_of_slope(q) is [1.]. *)
Lemma average_of_slope_affine_fails_in_float64 :
  let q := F64.series_012 in
  let a := F64.of_Z 1 in
  let c := F64.two_53 in
  to_list (F64.shift1 (F64.scale1 a q) c)
  = [F64.of_Z (2 ^ 53); F64.of_Z (2 ^ 53); F64.of_Z (2 ^ 53 + 2)] /\
  to_list (F64.average_of_slope1 (F64.shift1 (F64.scale1 a q) c))
  = [F64.of_Z 0] /\
  to_list (F64.scale1 a (F64.average_of_slope1 q)) = [F64.of_Z 1] /\
  ~ eq1 (F64.average_of_slope1 (F64.shift1 (F64.scale1 a q) c))
        (F64.scale1 a (F64.average_of_slope1 q)).
Proof.
  cbv zeta. split; [vm_compute; reflexivity|].
  split; [vm_compute; reflexivity|].
  split; [vm_compute; reflexivity|].
  intros [_ H]. specialize (H 0).
  assert (Hlen : 0 < len (F64.average_of_slope1
                            (F64.shift1
                               (F64.scale1 (F64.of_Z 1) F64.series_012)
                               F64.two_53)))
    by (vm_compute; lia).
  apply H in Hlen. vm_compute in Hlen. discriminate Hlen.
Qed.

(** ** The facade *)

Section FacadeFacts.

Variable create_bounding_matrix : builder.

Variables (window : option Qc) (compute_derivative : DerivativeCallable).

(** The entry points, with the factory call unfolded: one allocation of
    the mask, then the closure. *)
Lemma distance_unfold (x y : series) :
  let bm := create_bounding_matrix (shape1 x) (shape1 y) window in
  distance create_bounding_matrix x y window compute_derivative =
  (AllocBounding (shape0 bm) (shape1 bm)
     :: trace (numba_ddtw_distance compute_derivative bm x y),
   outcome (numba_ddtw_distance compute_derivative bm x y)).
Proof.
  cbv zeta. unfold distance, _distance_factory, call_create_bounding_matrix.
  cbn [bind emit ret app].
  destruct (numba_ddtw_distance _ _ x y) as [t r]. reflexivity.
Qed.

Lemma distance_with_path_unfold (x y : series) (return_cost_matrix : bool) :
  let bm := create_bounding_matrix (shape1 x) (shape1 y) window in
  distance_with_path create_bounding_matrix x y window compute_derivative
                     return_cost_matrix =
  (AllocBounding (shape0 bm) (shape1 bm)
     :: trace (numba_ddtw_distance_alignment_path
                 return_cost_matrix compute_derivative bm x y),
   outcome (numba_ddtw_distance_alignment_path
              return_cost_matrix compute_derivative bm x y)).
Proof.
  cbv zeta.
  unfold distance_with_path, _distance_alignment_path_factory,
    call_create_bounding_matrix.
  cbn [bind emit ret app].
  destruct (numba_ddtw_distance_alignment_path _ _ _ x y) as [t r].
  reflexivity.
Qed.

(** The closures, in terms of the cost matrix they compute. *)
Lemma numba_ddtw_distance_unfold (bm : mask) (_x _y : series) :
  numba_ddtw_distance compute_derivative bm _x _y =
  fmap (@last_cell ecost)
       (_dtw_cost_matrix (compute_derivative _x) (compute_derivative _y) bm).
Proof. reflexivity. Qed.

Lemma numba_ddtw_distance_alignment_path_unfold
      (return_cost_matrix : bool) (bm : mask) (_x _y : series) :
  numba_ddtw_distance_alignment_path
    return_cost_matrix compute_derivative bm _x _y =
  fmap (fun cost_matrix =>
          let path := compute_min_return_path cost_matrix in
          if return_cost_matrix
          then PathDistanceCost path (last_cell cost_matrix) cost_matrix
          else PathDistance path (last_cell cost_matrix))
       (_dtw_cost_matrix (compute_derivative _x) (compute_derivative _y) bm).
Proof. destruct return_cost_matrix; reflexivity. Qed.

End FacadeFacts.

Lemma fmap_fmap {A B C} (f : A -> B) (g : B -> C) (m : M A) :
  fmap g (fmap f m) = fmap (fun a => g (f a)) m.
Proof.
  destruct m as [t [e|a]]; unfold fmap, bind, ret; simpl;
    now rewrite ?app_nil_r.
Qed.

Lemma fmap_ext {A B} (f g : A -> B) (m : M A) :
  (forall a, f a = g a) -> fmap f m = fmap g m.
Proof.
  intro H. destruct m as [t [e|a]]; unfold fmap, bind, ret; simpl;
    now rewrite ?H.
Qed.

Lemma fmap_outcome {A B} (f : A -> B) (m : M A) :
  outcome (fmap f m) =
  match outcome m with inl e => inl e | inr a => inr (f a) end.
Proof. now destruct m as [t [e|a]]. Qed.

Lemma fmap_trace {A B} (f : A -> B) (m : M A) :
  trace (fmap f m) = trace m.
Proof.
  destruct m as [t [e|a]]; unfold fmap, bind, ret, trace; simpl;
    now rewrite ?app_nil_r.
Qed.

(** The closure of the distance factory returns the distance component of
    what the closure of the path factory returns. *)
Lemma closures_agree (compute_derivative : DerivativeCallable)
      (return_cost_matrix : bool) (bm : mask) (_x _y : series) :
  numba_ddtw_distance compute_derivative bm _x _y =
  fmap result_distance
       (numba_ddtw_distance_alignment_path
          return_cost_matrix compute_derivative bm _x _y).
Proof.
  rewrite numba_ddtw_distance_unfold,
    numba_ddtw_distance_alignment_path_unfold, fmap_fmap.
  apply fmap_ext. intro cm. now destruct return_cost_matrix.
Qed.

Lemma fmap_cons {A B} (f : A -> B) (ev : event) (m : M A) :
  fmap f (ev :: trace m, outcome m) =
  (ev :: trace (fmap f m), outcome (fmap f m)).
Proof.
  destruct m as [t [e|a]]; unfold fmap, bind, ret, trace, outcome; simpl;
    now rewrite ?app_nil_r.
Qed.

(** C7. For all series, windows and derivative functions: the closure of
    the distance factory, and so the distance-only entry point, returns
    (with the same allocations, and the same error if any) the distance
    component of what the closure of the path factory, and so the
    distance-with-path entry point, returns; and with [return_cost_matrix]
    the latter returns the same path and the same distance as without,
    with, in addition, the cost matrix that [_dtw_cost_matrix] computed. *)
Theorem distance_is_path_distance (create_bounding_matrix : builder)
        (x y : series) (window : option Qc)
        (compute_derivative : DerivativeCallable) :
  let with_path :=
    distance_with_path create_bounding_matrix x y window compute_derivative in
  (forall return_cost_matrix (bm : mask) (_x _y : series),
     numba_ddtw_distance compute_derivative bm _x _y =
     fmap result_distance
          (numba_ddtw_distance_alignment_path
             return_cost_matrix compute_derivative bm _x _y)) /\
  (forall return_cost_matrix,
     distance create_bounding_matrix x y window compute_derivative =
     fmap result_distance (with_path return_cost_matrix)) /\
  fmap (fun r => (result_path r, result_distance r)) (with_path true) =
  fmap (fun r => (result_path r, result_distance r)) (with_path false) /\
  (forall r, outcome (with_path false) = inr r ->
     result_cost_matrix r = None) /\
  (forall r, outcome (with_path true) = inr r ->
     exists cost_matrix,
       result_cost_matrix r = Some cost_matrix /\
       outcome (_dtw_cost_matrix
                  (compute_derivative x) (compute_derivative y)
                  (create_bounding_matrix (shape1 x) (shape1 y) window))
       = inr cost_matrix).
Proof.
  cbv zeta. repeat split.
  - intros rcm bm _x _y. apply closures_agree.
  - intro rcm. rewrite distance_unfold, distance_with_path_unfold.
    cbv zeta. rewrite fmap_cons. now rewrite <- closures_agree.
  - rewrite !distance_with_path_unfold. cbv zeta. rewrite !fmap_cons.
    rewrite !numba_ddtw_distance_alignment_path_unfold, !fmap_fmap.
    reflexivity.
  - intros r. rewrite distance_with_path_unfold. cbv zeta.
    rewrite numba_ddtw_distance_alignment_path_unfold.
    unfold outcome at 1. cbn [snd]. rewrite fmap_outcome.
    destruct (outcome _) as [e|cm]; [discriminate|].
    intro H. injection H as <-. reflexivity.
  - intros r. rewrite distance_with_path_unfold. cbv zeta.
    rewrite numba_ddtw_distance_alignment_path_unfold.
    unfold outcome at 1. cbn [snd]. rewrite fmap_outcome.
    destruct (outcome _) as [e|cm]; [discriminate|].
    intro H. injection H as <-. exists cm. split; reflexivity.
Qed.

(** ** Validation in the cost matrix routine *)

Lemma _dtw_cost_matrix_shape_error (x y : series) (bm : mask) :
  shape0 x <> shape0 y ->
  _dtw_cost_matrix x y bm = ([], inl ShapeError).
Proof.
  intro H. unfold _dtw_cost_matrix.
  destruct (Nat.eqb_spec (shape0 x) (shape0 y)); [contradiction|reflexivity].
Qed.

Lemma _dtw_cost_matrix_value_error (x y : series) (bm : mask) :
  shape0 x = shape0 y -> shape1 x < 1 \/ shape1 y < 1 ->
  _dtw_cost_matrix x y bm = ([], inl ValueError).
Proof.
  intros H0 H1. unfold _dtw_cost_matrix.
  destruct (Nat.eqb_spec (shape0 x) (shape0 y)); [|contradiction].
  cbn [negb].
  destruct (Nat.ltb_spec (shape1 x) 1), (Nat.ltb_spec (shape1 y) 1);
    try reflexivity; lia.
Qed.

Lemma _dtw_cost_matrix_ok (x y : series) (bm : mask) :
  shape0 x = shape0 y -> 1 <= shape1 x -> 1 <= shape1 y ->
  _dtw_cost_matrix x y bm =
  ([AllocCost (shape1 x + 1) (shape1 y + 1)],
   inr (dtw_fill x y bm (shape1 x) (shape1 y)
                 (init_grid (shape1 x) (shape1 y)))).
Proof.
  intros H0 H1 H2. unfold _dtw_cost_matrix.
  destruct (Nat.eqb_spec (shape0 x) (shape0 y)); [|contradiction].
  cbn [negb].
  destruct (Nat.ltb_spec (shape1 x) 1), (Nat.ltb_spec (shape1 y) 1);
    try lia.
  reflexivity.
Qed.

(** C3. If one of two series of the same number of dimensions has fewer
    than 3 timepoints, its derivative has no timepoint, and both entry
    points fail with a ValueError, raised by the validation of the cost
    matrix routine: no cost matrix has been allocated, so no
    dynamic-programming work has been done. *)
Theorem short_series_value_error (create_bounding_matrix : builder)
        (x y : series) (window : option Qc) (d m1 m2 : nat) :
  has_shape x d m1 -> has_shape y d m2 -> m1 < 3 \/ m2 < 3 ->
  let dist :=
    distance create_bounding_matrix x y window average_of_slope in
  (outcome dist = inl ValueError /\ no_cost_alloc (trace dist)) /\
  (forall return_cost_matrix,
     let res := distance_with_path create_bounding_matrix x y window
                                   average_of_slope return_cost_matrix in
     outcome res = inl ValueError /\ no_cost_alloc (trace res)).
Proof.
  unfold has_shape, shape. intros Hx Hy Hm.
  injection Hx as Hx0 Hx1. injection Hy as Hy0 Hy1.
  assert (Hcm : forall bm,
             _dtw_cost_matrix (average_of_slope x) (average_of_slope y) bm
             = ([], inl ValueError)).
  { intro bm. apply _dtw_cost_matrix_value_error.
    - assert (Ha := f_equal fst (average_of_slope_shape x)).
      assert (Hb := f_equal fst (average_of_slope_shape y)).
      cbn [shape fst] in Ha, Hb. congruence.
    - assert (Ha := f_equal snd (average_of_slope_shape x)).
      assert (Hb := f_equal snd (average_of_slope_shape y)).
      cbn [shape snd] in Ha, Hb. lia. }
  cbv zeta. split; [|intro rcm].
  - rewrite distance_unfold. cbv zeta.
    rewrite numba_ddtw_distance_unfold, Hcm. split; reflexivity.
  - rewrite distance_with_path_unfold. cbv zeta.
    rewrite numba_ddtw_distance_alignment_path_unfold, Hcm.
    split; reflexivity.
Qed.

Lemma short_series_value_error_witness :
  outcome (distance sakoe_chiba series_12 series_12345 None average_of_slope)
  = inl ValueError.
Proof.
  apply (short_series_value_error
           sakoe_chiba (x := series_12) (y := series_12345) None
           (d := 1) (m1 := 2) (m2 := 5));
    [reflexivity | reflexivity | left; lia].
Defined.

(** C4, as the code has it. Two series whose numbers of dimensions differ
    make both entry points fail with a ShapeError, raised by the
    validation of the cost matrix routine before a cost matrix is
    allocated; the bounding matrix has been built by then, by the
    factory, and is the only allocation. *)
Theorem dimension_mismatch_shape_error (create_bounding_matrix : builder)
        (x y : series) (window : option Qc) :
  shape0 x <> shape0 y ->
  let bm := create_bounding_matrix (shape1 x) (shape1 y) window in
  distance create_bounding_matrix x y window average_of_slope =
  ([AllocBounding (shape0 bm) (shape1 bm)], inl ShapeError) /\
  (forall return_cost_matrix,
     distance_with_path create_bounding_matrix x y window average_of_slope
                        return_cost_matrix =
     ([AllocBounding (shape0 bm) (shape1 bm)], inl ShapeError)).
Proof.
  intro Hd.
  assert (Hcm : forall bm,
             _dtw_cost_matrix (average_of_slope x) (average_of_slope y) bm
             = ([], inl ShapeError)).
  { intro bm. apply _dtw_cost_matrix_shape_error.
    assert (Ha := f_equal fst (average_of_slope_shape x)).
    assert (Hb := f_equal fst (average_of_slope_shape y)).
    cbn [shape fst] in Ha, Hb. congruence. }
  cbv zeta. split; [|intro rcm].
  - rewrite distance_unfold. cbv zeta.
    now rewrite numba_ddtw_distance_unfold, Hcm.
  - rewrite distance_with_path_unfold. cbv zeta.
    now rewrite numba_ddtw_distance_alignment_path_unfold, Hcm.
Qed.

Lemma dimension_mismatch_shape_error_witness :
  shape0 series_12345 <> shape0 series_2x5 /\
  distance sakoe_chiba series_12345 series_2x5 None average_of_slope =
  ([AllocBounding 5 5], inl ShapeError).
Proof.
  assert (H : shape0 series_12345 <> shape0 series_2x5) by (cbn; lia).
  split; [exact H|].
  exact (proj1 (dimension_mismatch_shape_error
                  sakoe_chiba series_12345 series_2x5 None H)).
Defined.

(** C4 as stated fails: on series of shapes (1, 5) and (2, 5) the
    ShapeError comes after an allocation, that of the 5 x 5 bounding
    matrix. *)
Lemma dimension_mismatch_after_allocation :
  let dist :=
    distance sakoe_chiba series_12345 series_2x5 None average_of_slope in
  ~ (outcome dist = inl ShapeError /\ no_alloc (trace dist)).
Proof.
  cbv zeta. intros [_ H]. unfold no_alloc in H.
  vm_compute in H. discriminate H.
Qed.

(** ** The bounding matrix of the factories *)

Lemma fold_left_ext_in {A B} (f g : A -> B -> A) (l : list B) (a : A) :
  (forall a b, In b l -> f a b = g a b) ->
  fold_left f l a = fold_left g l a.
Proof.
  revert a. induction l as [|b l IH]; intros a H; simpl; [reflexivity|].
  rewrite H by now left. apply IH. intros a' b' Hb. apply H. now right.
Qed.

(** The loops read the mask at the cells (i, j), i < n1, j < n2, only. *)
Lemma dtw_fill_mask_ext (x y : series) (bm bm' : mask) (n1 n2 : nat)
      (cost : grid) :
  (forall i j, i < n1 -> j < n2 -> at2 bm i j = at2 bm' i j) ->
  dtw_fill x y bm n1 n2 cost = dtw_fill x y bm' n1 n2 cost.
Proof.
  intro H. unfold dtw_fill. apply fold_left_ext_in.
  intros g i Hi. apply in_seq in Hi. unfold dtw_row.
  apply fold_left_ext_in. intros g' j Hj. apply in_seq in Hj.
  unfold dtw_cell. rewrite (H (i - 1) (j - 1)) by lia. reflexivity.
Qed.

Lemma _dtw_cost_matrix_mask_ext (x y : series) (bm bm' : mask) :
  (forall i j, i < shape1 x -> j < shape1 y -> at2 bm i j = at2 bm' i j) ->
  _dtw_cost_matrix x y bm = _dtw_cost_matrix x y bm'.
Proof.
  intro H. unfold _dtw_cost_matrix.
  now rewrite (dtw_fill_mask_ext x y bm bm' _ H).
Qed.

(** C2, as the code has it. Both factories build the bounding matrix from
    the lengths of the series they are given, not from the lengths of the
    derivatives: for x of shape (d, m1) and y of shape (d, m2) the mask has
    shape (m1, m2).  The closures they return keep that mask, and the cost
    matrix computation over the derivatives reads only its cells (i, j)
    with i and j below the derivative lengths. *)
Theorem bounding_matrix_sized_by_series_lengths
        (create_bounding_matrix : builder) (x y : series)
        (window : option Qc) (compute_derivative : DerivativeCallable) :
  builder_contract create_bounding_matrix ->
  let bm := create_bounding_matrix (shape1 x) (shape1 y) window in
  shape bm = (shape1 x, shape1 y) /\
  _distance_factory create_bounding_matrix x y window compute_derivative =
  ([AllocBounding (shape1 x) (shape1 y)],
   inr (numba_ddtw_distance compute_derivative bm)) /\
  (forall return_cost_matrix,
     _distance_alignment_path_factory
       create_bounding_matrix x y return_cost_matrix window compute_derivative
     = ([AllocBounding (shape1 x) (shape1 y)],
        inr (numba_ddtw_distance_alignment_path
               return_cost_matrix compute_derivative bm))) /\
  (forall (bm' : mask) (_x _y : series),
     (forall i j, i < shape1 (compute_derivative _x) ->
                  j < shape1 (compute_derivative _y) ->
                  at2 bm i j = at2 bm' i j) ->
     numba_ddtw_distance compute_derivative bm _x _y =
     numba_ddtw_distance compute_derivative bm' _x _y /\
     forall return_cost_matrix,
       numba_ddtw_distance_alignment_path
         return_cost_matrix compute_derivative bm _x _y =
       numba_ddtw_distance_alignment_path
         return_cost_matrix compute_derivative bm' _x _y).
Proof.
  intros [Hshape _]. cbv zeta.
  assert (Hs := Hshape (shape1 x) (shape1 y) window).
  assert (H0 := f_equal fst Hs). assert (H1 := f_equal snd Hs).
  cbn [shape fst snd] in H0, H1.
  split; [exact Hs|]. split; [|split].
  - unfold _distance_factory, call_create_bounding_matrix.
    cbn [bind emit ret app]. now rewrite H0, H1.
  - intro rcm.
    unfold _distance_alignment_path_factory, call_create_bounding_matrix.
    cbn [bind emit ret app]. now rewrite H0, H1.
  - intros bm' _x _y Hbm. split; [|intro rcm].
    + rewrite !numba_ddtw_distance_unfold.
      now rewrite (_dtw_cost_matrix_mask_ext _ _ _ bm' Hbm).
    + rewrite !numba_ddtw_distance_alignment_path_unfold.
      now rewrite (_dtw_cost_matrix_mask_ext _ _ _ bm' Hbm).
Qed.

Lemma sakoe_chiba_contract : builder_contract sakoe_chiba.
Proof. split; reflexivity. Qed.

Lemma bounding_matrix_sized_by_series_lengths_witness :
  trace (_distance_factory sakoe_chiba series_12345 series_132557 None
                           average_of_slope)
  = [AllocBounding 5 6].
Proof.
  assert (H := bounding_matrix_sized_by_series_lengths
                 series_12345 series_132557 None average_of_slope
                 (conj (fun m1 m2 w => eq_refl) (fun m1 m2 i j => eq_refl)
                  : builder_contract sakoe_chiba)).
  cbv zeta in H. destruct H as [_ [H _]]. rewrite H. reflexivity.
Defined.

(** C2 as stated fails: for two series of 5 timepoints the derivatives
    have 3, and the mask the factory builds is not 3 x 3 (it is 5 x 5). *)
Lemma bounding_matrix_not_derivative_sized :
  let n := shape1 (average_of_slope series_12345) in
  n = 3 /\
  trace (_distance_factory sakoe_chiba series_12345 series_12345 None
                           average_of_slope)
  <> [AllocBounding n n].
Proof.
  cbv zeta. split; [reflexivity|].
  vm_compute. intro H. discriminate H.
Qed.

(** C10. The factories use their series x and y through x.shape[1] and
    y.shape[1] only: called on series of the same lengths, with the same
    window, derivative and flag, they return closures that give the same
    result (and allocate the same) on every pair of series. *)
Theorem factory_depends_on_lengths_only
        (create_bounding_matrix : builder) (x1 y1 x2 y2 : series)
        (window : option Qc) (compute_derivative : DerivativeCallable) :
  shape1 x1 = shape1 x2 -> shape1 y1 = shape1 y2 ->
  (exists f1 f2,
     outcome (_distance_factory create_bounding_matrix x1 y1 window
                                compute_derivative) = inr f1 /\
     outcome (_distance_factory create_bounding_matrix x2 y2 window
                                compute_derivative) = inr f2 /\
     forall _x _y : series, f1 _x _y = f2 _x _y) /\
  (forall return_cost_matrix,
   exists g1 g2,
     outcome (_distance_alignment_path_factory
                create_bounding_matrix x1 y1 return_cost_matrix window
                compute_derivative) = inr g1 /\
     outcome (_distance_alignment_path_factory
                create_bounding_matrix x2 y2 return_cost_matrix window
                compute_derivative) = inr g2 /\
     forall _x _y : series, g1 _x _y = g2 _x _y).
Proof.
  intros Hx Hy. split; [|intro rcm].
  - unfold _distance_factory, call_create_bounding_matrix.
    cbn [bind emit ret app outcome snd]. rewrite Hx, Hy.
    eexists; eexists. repeat split; reflexivity.
  - unfold _distance_alignment_path_factory, call_create_bounding_matrix.
    cbn [bind emit ret app outcome snd]. rewrite Hx, Hy.
    eexists; eexists. repeat split; reflexivity.
Qed.

Lemma factory_depends_on_lengths_only_witness :
  exists f1 f2,
    outcome (_distance_factory sakoe_chiba series_12345 series_12345 None
                               average_of_slope) = inr f1 /\
    outcome (_distance_factory sakoe_chiba series_2x5 series_2x5 None
                               average_of_slope) = inr f2 /\
    forall _x _y : series, f1 _x _y = f2 _x _y.
Proof.
  exact (proj1 (factory_depends_on_lengths_only
                  sakoe_chiba series_12345 series_12345
                  series_2x5 series_2x5 None average_of_slope
                  eq_refl eq_refl)).
Defined.


(** ** The loops of the cost matrix compute the recurrence *)

Section Loops.

Variables (x y : series) (bm : mask) (n1 n2 : nat).

Lemma dtw_rec_S_S (i j : nat) :
  dtw_rec x y bm (S i) (S j) =
  if at2 bm i j then
    eadd (Fin (pointwise_distance x y i j))
         (emin3 (dtw_rec x y bm i (S j)) (dtw_rec x y bm (S i) j)
                (dtw_rec x y bm i j))
  else Inf.
Proof. reflexivity. Qed.

Lemma dtw_rec_S_0 (i : nat) : dtw_rec x y bm (S i) 0 = Inf.
Proof. reflexivity. Qed.

Lemma dtw_rec_0_S (j : nat) : dtw_rec x y bm 0 (S j) = Inf.
Proof. reflexivity. Qed.

Lemma init_grid_at (a b : nat) :
  at2 (init_grid n1 n2) a b =
  if (a =? 0) && (b =? 0) then Fin (lit 0) else Inf.
Proof. reflexivity. Qed.

Lemma filled_init : filled x y bm n1 n2 1 0 (init_grid n1 n2).
Proof.
  split; [reflexivity|]. intros a b. rewrite init_grid_at.
  unfold processed.
  destruct a as [|[|a]], b as [|b];
    destruct (_ <=? n2); reflexivity.
Qed.

Lemma filled_cell (i j : nat) (g : grid) :
  1 <= i -> j < n2 ->
  filled x y bm n1 n2 i j g ->
  filled x y bm n1 n2 i (S j) (dtw_cell x y bm i (S j) g).
Proof.
  intros Hi Hj [Hs Hg]. destruct i as [|i']; [lia|].
  unfold dtw_cell. cbn [Nat.sub]. rewrite !Nat.sub_0_r.
  assert (Hup : at2 g i' (S j) = dtw_rec x y bm i' (S j)).
  { rewrite Hg. unfold processed. now nat_cases. }
  assert (Hleft : at2 g (S i') j = dtw_rec x y bm (S i') j).
  { rewrite Hg. unfold processed. now nat_cases. }
  assert (Hdiag : at2 g i' j = dtw_rec x y bm i' j).
  { rewrite Hg. unfold processed. now nat_cases. }
  assert (Hnew : at2 g (S i') (S j) = Inf).
  { rewrite Hg, init_grid_at. unfold processed. now nat_cases. }
  assert (Hrest : forall a b, (a, b) <> (S i', S j) ->
            processed n2 (S i') (S j) a b = processed n2 (S i') j a b).
  { intros a b Hab. unfold processed.
    assert (a <> S i' \/ b <> S j) as [H|H]
        by (destruct (Nat.eq_dec a (S i')), (Nat.eq_dec b (S j));
            try (left; assumption); try (right; assumption); congruence);
      now nat_cases. }
  assert (Hhere : processed n2 (S i') (S j) (S i') (S j) = true).
  { unfold processed. now nat_cases. }
  destruct (at2 bm i' j) eqn:Hbm.
  - split; [exact Hs|]. intros a b. cbn [set2 at2].
    destruct (Nat.eqb_spec a (S i')) as [->|Ha];
      [destruct (Nat.eqb_spec b (S j)) as [->|Hb]|]; cbn [andb].
    + rewrite Hhere, dtw_rec_S_S, Hbm, Hup, Hleft, Hdiag. reflexivity.
    + rewrite Hrest by congruence. apply Hg.
    + rewrite Hrest by congruence. apply Hg.
  - split; [exact Hs|]. intros a b.
    destruct (Nat.eq_dec a (S i')) as [->|Ha];
      [destruct (Nat.eq_dec b (S j)) as [->|Hb]|].
    + now rewrite Hhere, dtw_rec_S_S, Hbm.
    + rewrite Hrest by congruence. apply Hg.
    + rewrite Hrest by congruence. apply Hg.
Qed.

Lemma filled_columns (i k : nat) (g : grid) :
  1 <= i -> k <= n2 ->
  filled x y bm n1 n2 i 0 g ->
  filled x y bm n1 n2 i k
         (fold_left (fun cost j => dtw_cell x y bm i j cost) (seq 1 k) g).
Proof.
  intros Hi Hk Hg. induction k as [|k IH]; [exact Hg|].
  rewrite seq_S, fold_left_app. cbn [fold_left plus].
  apply filled_cell; [lia | lia | apply IH; lia].
Qed.

Lemma filled_next_row (i : nat) (g : grid) :
  filled x y bm n1 n2 i n2 g -> filled x y bm n1 n2 (S i) 0 g.
Proof.
  intros [Hs Hg]. split; [exact Hs|]. intros a b. rewrite Hg.
  destruct (Nat.eq_dec a (S i)) as [->|Ha].
  - destruct b as [|b].
    + assert (H1 : processed n2 i n2 (S i) 0 = false)
        by (unfold processed; now nat_cases).
      assert (H2 : processed n2 (S i) 0 (S i) 0 = true)
        by (unfold processed; now nat_cases).
      now rewrite H1, H2.
    + assert (H1 : processed n2 i n2 (S i) (S b) = false)
        by (unfold processed; now nat_cases).
      assert (H2 : processed n2 (S i) 0 (S i) (S b) = false)
        by (unfold processed; now nat_cases).
      now rewrite H1, H2.
  - assert (H : processed n2 (S i) 0 a b = processed n2 i n2 a b)
      by (unfold processed; now nat_cases).
    now rewrite H.
Qed.

Lemma filled_rows (k : nat) :
  filled x y bm n1 n2 (S k) 0
         (fold_left (fun cost i => dtw_row x y bm n2 i cost) (seq 1 k)
                    (init_grid n1 n2)).
Proof.
  induction k as [|k IH]; [exact filled_init|].
  rewrite seq_S, fold_left_app. cbn [fold_left plus].
  apply filled_next_row. unfold dtw_row.
  apply filled_columns; [lia | lia | exact IH].
Qed.

(** The grid the loops leave holds the recurrence in every cell. *)
Lemma dtw_fill_correct :
  let cost := dtw_fill x y bm n1 n2 (init_grid n1 n2) in
  shape cost = (n1 + 1, n2 + 1) /\
  forall i j, i <= n1 -> j <= n2 -> at2 cost i j = dtw_rec x y bm i j.
Proof.
  cbv zeta. destruct (filled_rows n1) as [Hs Hg]. split; [exact Hs|].
  intros i j Hi Hj. unfold dtw_fill. rewrite Hg.
  unfold processed. now nat_cases.
Qed.

End Loops.

(** ** Order and arithmetic of costs *)

Lemma leb_le (a b : Qc) : leb a b = true <-> (a <= b)%Qc.
Proof. unfold leb, Qcle. apply Qle_bool_iff. Qed.

Lemma leb_total (a b : Qc) : leb a b = false -> leb b a = true.
Proof.
  intro H. apply leb_le. apply Qclt_le_weak. apply Qcnot_le_lt.
  intro Hle. apply leb_le in Hle. congruence.
Qed.

Lemma leb_antisym (a b : Qc) : leb a b = true -> leb b a = true -> a = b.
Proof. rewrite !leb_le. apply Qcle_antisym. Qed.

Lemma sqr_nonneg (a : Qc) : (lit 0 <= sqr a)%Qc.
Proof.
  unfold sqr, Qcle. cbn [this Qcmult Q2Qc lit]. rewrite !Qred_correct.
  destruct (Qlt_le_dec (this a) 0) as [Hneg|Hpos].
  - setoid_replace (this a * this a)%Q with ((- this a) * (- this a))%Q
      by ring.
    apply Qmult_le_0_compat;
      apply (Qopp_le_compat (this a) 0), Qlt_le_weak, Hneg.
  - now apply Qmult_le_0_compat.
Qed.

Lemma sqr_sub_self (a : Qc) : sqr (a - a) = lit 0.
Proof. unfold sqr, lit. ring. Qed.

Lemma sqr_sub_sym (a b : Qc) : sqr (a - b) = sqr (b - a).
Proof. unfold sqr. ring. Qed.

Lemma sum_sqr_nonneg (f : nat -> Qc) (l : list nat) (acc : Qc) :
  (lit 0 <= acc)%Qc ->
  (lit 0 <= fold_left (fun sum k => sum + sqr (f k)) l acc)%Qc.
Proof.
  revert acc. induction l as [|k l IH]; intros acc Hacc; [exact Hacc|].
  cbn [fold_left]. apply IH.
  rewrite <- (Qcplus_0_l (lit 0)).
  apply Qcplus_le_compat; [exact Hacc | apply sqr_nonneg].
Qed.

Lemma pointwise_distance_nonneg (x y : series) (i j : nat) :
  (lit 0 <= pointwise_distance x y i j)%Qc.
Proof.
  unfold pointwise_distance.
  apply (sum_sqr_nonneg (fun k => at2 x k i - at2 y k j)%Qc).
  apply Qcle_refl.
Qed.

Lemma pointwise_distance_self (x : series) (i : nat) :
  pointwise_distance x x i i = lit 0.
Proof.
  unfold pointwise_distance.
  induction (seq 0 (shape0 x)) as [|k l IH]; [reflexivity|].
  cbn [fold_left]. rewrite sqr_sub_self.
  replace (lit 0 + lit 0)%Qc with (lit 0) by (unfold lit; ring).
  exact IH.
Qed.

Lemma pointwise_distance_sym (x y : series) (i j : nat) :
  shape0 x = shape0 y ->
  pointwise_distance x y i j = pointwise_distance y x j i.
Proof.
  intro Hd. unfold pointwise_distance. rewrite Hd.
  apply fold_left_ext_in. intros sum k _. now rewrite sqr_sub_sym.
Qed.

Lemma emin_cases (a b : ecost) : emin a b = a \/ emin a b = b.
Proof. unfold emin. destruct (eleb a b); [now left | now right]. Qed.

Lemma emin3_cases (a b c : ecost) :
  emin3 a b c = a \/ emin3 a b c = b \/ emin3 a b c = c.
Proof.
  unfold emin3. destruct (emin_cases (emin a b) c) as [H|H]; rewrite H.
  - destruct (emin_cases a b) as [H'|H']; rewrite H'; tauto.
  - tauto.
Qed.

Lemma eleb_total (a b : ecost) : eleb a b = false -> eleb b a = true.
Proof.
  destruct a as [p|], b as [q|]; cbn; try congruence. apply leb_total.
Qed.

Lemma eleb_antisym (a b : ecost) :
  eleb a b = true -> eleb b a = true -> a = b.
Proof.
  destruct a as [p|], b as [q|]; cbn; try congruence.
  intros H1 H2. f_equal. now apply leb_antisym.
Qed.

Lemma eleb_trans (a b c : ecost) :
  eleb a b = true -> eleb b c = true -> eleb a c = true.
Proof.
  destruct a as [p|], b as [q|], c as [r|]; cbn; try congruence.
  rewrite !leb_le. apply Qcle_trans.
Qed.

Lemma emin_comm (a b : ecost) : emin a b = emin b a.
Proof.
  unfold emin. destruct (eleb a b) eqn:Hab, (eleb b a) eqn:Hba.
  - now apply eleb_antisym.
  - reflexivity.
  - reflexivity.
  - apply eleb_total in Hab. congruence.
Qed.

Lemma emin3_swap (a b c : ecost) : emin3 a b c = emin3 b a c.
Proof. unfold emin3. now rewrite (emin_comm a b). Qed.

Lemma emin_nonneg (a b : ecost) :
  enonneg a -> enonneg b -> enonneg (emin a b).
Proof. intros Ha Hb. now destruct (emin_cases a b) as [H|H]; rewrite H. Qed.

Lemma emin3_nonneg (a b c : ecost) :
  enonneg a -> enonneg b -> enonneg c -> enonneg (emin3 a b c).
Proof. intros Ha Hb Hc. unfold emin3. now repeat apply emin_nonneg. Qed.

Lemma eadd_nonneg (a b : ecost) :
  enonneg a -> enonneg b -> enonneg (eadd a b).
Proof.
  destruct a as [p|], b as [q|]; cbn; try tauto. intros Hp Hq.
  rewrite <- (Qcplus_0_l (lit 0)). now apply Qcplus_le_compat.
Qed.

Lemma emin_zero (a : ecost) : enonneg a -> emin a (Fin (lit 0)) = Fin (lit 0).
Proof.
  intro Ha. unfold emin. destruct (eleb a (Fin (lit 0))) eqn:H; [|reflexivity].
  destruct a as [p|]; [|discriminate]. cbn in H, Ha.
  f_equal. apply leb_antisym; [exact H | now apply leb_le].
Qed.

Lemma emin3_zero (a b : ecost) :
  enonneg a -> enonneg b -> emin3 a b (Fin (lit 0)) = Fin (lit 0).
Proof. intros Ha Hb. unfold emin3. apply emin_zero. now apply emin_nonneg. Qed.

Lemma emin_finite (a b : ecost) :
  is_finite (emin a b) = is_finite a || is_finite b.
Proof.
  unfold emin. destruct a as [p|], b as [q|]; cbn; try reflexivity.
  now destruct (leb p q).
Qed.

Lemma emin3_finite (a b c : ecost) :
  is_finite (emin3 a b c) = is_finite a || is_finite b || is_finite c.
Proof. unfold emin3. now rewrite !emin_finite. Qed.

Lemma eadd_finite (a b : ecost) :
  is_finite (eadd a b) = is_finite a && is_finite b.
Proof. now destruct a, b. Qed.

(** ** The recurrence *)

Section RecurrenceFacts.

Variables (x y : series) (bm : mask).

Lemma dtw_rec_nonneg (i j : nat) : enonneg (dtw_rec x y bm i j).
Proof.
  revert j. induction i as [|i IHi]; intro j.
  - destruct j; cbn; [apply Qcle_refl | exact I].
  - induction j as [|j IHj]; [exact I|].
    rewrite dtw_rec_S_S. destruct (at2 bm i j); [|exact I].
    apply eadd_nonneg; [apply pointwise_distance_nonneg|].
    apply emin3_nonneg; [apply IHi | exact IHj | apply IHi].
Qed.

(** A finite cell inside the grid has a finite predecessor. *)
Lemma dtw_rec_finite_pred (i j : nat) :
  is_finite (dtw_rec x y bm (S i) (S j)) = true ->
  is_finite (dtw_rec x y bm i j) = true \/
  is_finite (dtw_rec x y bm i (S j)) = true \/
  is_finite (dtw_rec x y bm (S i) j) = true.
Proof.
  rewrite dtw_rec_S_S. destruct (at2 bm i j); [|discriminate].
  rewrite eadd_finite, emin3_finite. cbn [is_finite andb].
  destruct (is_finite (dtw_rec x y bm i j)),
    (is_finite (dtw_rec x y bm i (S j))),
    (is_finite (dtw_rec x y bm (S i) j)); cbn; tauto.
Qed.

(** Without a band every cell inside the grid is finite. *)
Lemma dtw_rec_finite_full (n1 n2 i j : nat) :
  full_on bm n1 n2 -> i < n1 -> j < n2 ->
  is_finite (dtw_rec x y bm (S i) (S j)) = true.
Proof.
  intros Hfull. revert j. induction i as [|i IHi]; intros j Hi Hj.
  - induction j as [|j IHj].
    + rewrite dtw_rec_S_S, (Hfull 0 0) by lia.
      now rewrite eadd_finite, emin3_finite.
    + rewrite dtw_rec_S_S, (Hfull 0 (S j)) by lia.
      rewrite eadd_finite, emin3_finite, IHj by lia.
      reflexivity.
  - rewrite dtw_rec_S_S, (Hfull (S i) j) by lia.
    rewrite eadd_finite, emin3_finite, (IHi j) by lia. reflexivity.
Qed.

End RecurrenceFacts.

(** The distance of a series to itself: the diagonal of the grid is 0. *)
Lemma dtw_rec_diagonal (x : series) (bm : mask) (n i : nat) :
  (forall k, k < n -> at2 bm k k = true) ->
  i <= n -> dtw_rec x x bm i i = Fin (lit 0).
Proof.
  intros Hdiag. induction i as [|i IH]; intro Hi; [reflexivity|].
  rewrite dtw_rec_S_S, Hdiag by lia.
  rewrite pointwise_distance_self, IH by lia.
  rewrite emin3_zero by apply dtw_rec_nonneg.
  cbn [eadd]. now rewrite Qcplus_0_l.
Qed.

(** Exchanging the two series transposes the grid. *)
Lemma dtw_rec_transpose (x y : series) (bm bm' : mask) (n1 n2 : nat) :
  shape0 x = shape0 y ->
  (forall i j, i < n1 -> j < n2 -> at2 bm i j = at2 bm' j i) ->
  forall i j, i <= n1 -> j <= n2 ->
    dtw_rec x y bm i j = dtw_rec y x bm' j i.
Proof.
  intros Hd Hbm. induction i as [|i IHi]; intros j Hi Hj.
  - now destruct j.
  - induction j as [|j IHj]; [reflexivity|].
    rewrite !dtw_rec_S_S, (Hbm i j) by lia.
    rewrite (pointwise_distance_sym x y i j Hd).
    rewrite (IHi (S j)), (IHi j), IHj by lia.
    now rewrite emin3_swap.
Qed.

(** ** The distance of valid series *)

(** On derivatives of one dimension count with a timepoint each, the
    closure allocates the grid and returns the recurrence at (n1, n2). *)
Lemma _dtw_cost_matrix_last_cell (x y : series) (bm : mask) :
  last_cell (dtw_fill x y bm (shape1 x) (shape1 y)
                      (init_grid (shape1 x) (shape1 y)))
  = dtw_rec x y bm (shape1 x) (shape1 y).
Proof.
  destruct (dtw_fill_correct x y bm (shape1 x) (shape1 y)) as [Hs Hg].
  unfold last_cell.
  assert (H0 := f_equal fst Hs). assert (H1 := f_equal snd Hs).
  cbn [shape fst snd] in H0, H1. rewrite H0, H1, !Nat.add_sub.
  now apply Hg.
Qed.

Lemma derivative_valid (x : series) (d m : nat) :
  has_shape x d m -> 3 <= m ->
  shape0 (average_of_slope x) = d /\ shape1 (average_of_slope x) = m - 2.
Proof.
  unfold has_shape, shape. intros Hs Hm. injection Hs as H0 H1.
  assert (Ha := f_equal fst (average_of_slope_shape x)).
  assert (Hb := f_equal snd (average_of_slope_shape x)).
  cbn [shape fst snd] in Ha, Hb. lia.
Qed.

Lemma distance_valid (create_bounding_matrix : builder) (x y : series)
      (window : option Qc) (d m1 m2 : nat) :
  has_shape x d m1 -> has_shape y d m2 -> 3 <= m1 -> 3 <= m2 ->
  outcome (distance create_bounding_matrix x y window average_of_slope) =
  inr (dtw_rec (average_of_slope x) (average_of_slope y)
               (create_bounding_matrix m1 m2 window) (m1 - 2) (m2 - 2)).
Proof.
  intros Hx Hy Hm1 Hm2.
  destruct (derivative_valid Hx Hm1) as [Hx0 Hx1].
  destruct (derivative_valid Hy Hm2) as [Hy0 Hy1].
  unfold has_shape, shape in Hx, Hy.
  injection Hx as _ Hxm. injection Hy as _ Hym.
  rewrite distance_unfold. cbv zeta. cbn [outcome snd].
  rewrite numba_ddtw_distance_unfold, fmap_outcome.
  rewrite _dtw_cost_matrix_ok by lia. cbn [outcome snd].
  now rewrite _dtw_cost_matrix_last_cell, Hx1, Hy1, Hxm, Hym.
Qed.

(** C5. The distance of a valid series (shape (d, m), m >= 3) to itself is
    0, whenever the band admits the diagonal cells of the derivative grid,
    as it does when no window is given. *)
Theorem distance_identity (create_bounding_matrix : builder) (x : series)
        (window : option Qc) (d m : nat) :
  has_shape x d m -> 3 <= m ->
  (forall i, i < m - 2 -> at2 (create_bounding_matrix m m window) i i = true) ->
  outcome (distance create_bounding_matrix x x window average_of_slope) =
  inr (Fin (lit 0)).
Proof.
  intros Hx Hm Hdiag. rewrite (distance_valid _ _ Hx Hx Hm Hm).
  f_equal. now apply (dtw_rec_diagonal _ _ (n := m - 2)).
Qed.

Lemma distance_identity_witness :
  outcome (distance sakoe_chiba series_132557 series_132557 None
                    average_of_slope) = inr (Fin (lit 0)).
Proof.
  apply (distance_identity sakoe_chiba (x := series_132557) None
                           (d := 1) (m := 6));
    [reflexivity | lia | intros i _; reflexivity].
Defined.

(** C6. The distance is symmetric on valid series (same d, lengths at
    least 3), whenever the mask built for (y, x) is, on the derivative
    grid, the transpose of the mask built for (x, y), as it is when no
    window is given. *)
Theorem distance_symmetric (create_bounding_matrix : builder) (x y : series)
        (window : option Qc) (d m1 m2 : nat) :
  has_shape x d m1 -> has_shape y d m2 -> 3 <= m1 -> 3 <= m2 ->
  (forall i j, i < m1 - 2 -> j < m2 - 2 ->
     at2 (create_bounding_matrix m1 m2 window) i j =
     at2 (create_bounding_matrix m2 m1 window) j i) ->
  outcome (distance create_bounding_matrix x y window average_of_slope) =
  outcome (distance create_bounding_matrix y x window average_of_slope).
Proof.
  intros Hx Hy Hm1 Hm2 Hbm.
  rewrite (distance_valid _ _ Hx Hy Hm1 Hm2).
  rewrite (distance_valid _ _ Hy Hx Hm2 Hm1).
  f_equal. apply (dtw_rec_transpose _ _ _ _ (n1 := m1 - 2) (n2 := m2 - 2));
    try lia; try assumption.
  destruct (derivative_valid Hx Hm1) as [Hx0 _].
  destruct (derivative_valid Hy Hm2) as [Hy0 _]. congruence.
Qed.

Lemma distance_symmetric_witness :
  outcome (distance sakoe_chiba series_12345 series_132557 None
                    average_of_slope) =
  outcome (distance sakoe_chiba series_132557 series_12345 None
                    average_of_slope).
Proof.
  apply (distance_symmetric sakoe_chiba
           (x := series_12345) (y := series_132557) None
           (d := 1) (m1 := 5) (m2 := 6));
    [reflexivity | reflexivity | lia | lia | intros i j _ _; reflexivity].
Defined.

(** ** Path recovery *)

Lemma chain_snoc (R : cell -> cell -> Prop) (l : list cell) (a d : cell) :
  chain R l -> (l <> [] -> R (last l d) a) -> chain R (l ++ [a]).
Proof.
  induction l as [|b t IH]; intros Hl Ha; [now cbn|].
  destruct t as [|c t'].
  - cbn. repeat split. apply Ha. discriminate.
  - destruct Hl as [Hbc Ht]. split; [exact Hbc|].
    apply IH; [exact Ht|]. intros _. apply Ha. discriminate.
Qed.

Lemma hd_rev (l : list cell) (d : cell) : hd d (rev l) = last l d.
Proof.
  induction l as [|a l _] using rev_ind; [reflexivity|].
  now rewrite rev_unit, last_last.
Qed.

Lemma last_rev (l : list cell) (d : cell) : last (rev l) d = hd d l.
Proof.
  destruct l as [|a l]; [reflexivity|]. cbn [rev hd]. apply last_last.
Qed.

(** Reversing a list of backward steps gives forward steps. *)
Lemma chain_rev (R : cell -> cell -> Prop) (l : list cell) :
  chain (fun a b => R b a) l -> chain R (rev l).
Proof.
  induction l as [|a t IH]; [now cbn|]. intros [Ha Ht]. cbn [rev].
  apply chain_snoc with (d := a); [exact (IH Ht)|].
  intros Hne. rewrite last_rev. destruct t as [|b t']; [now cbn in Hne|].
  exact Ha.
Qed.

Lemma argmin_in (g : grid) (best : cell) (rest : list cell) :
  In (argmin g best rest) (best :: rest).
Proof.
  revert best. induction rest as [|c rest IH]; intro best; [now left|].
  cbn [argmin]. destruct (eleb _ _).
  - destruct (IH best) as [H|H]; [now left | now right; right].
  - right. apply IH.
Qed.

(** A move goes to a finite predecessor, and there is one whenever a
    predecessor is finite. *)
Lemma next_cell_some (g : grid) (i j : nat) :
  (exists c, In c (predecessors i j) /\ is_finite (cost_at g c) = true) ->
  exists c, next_cell g i j = Some c /\
            In c (predecessors i j) /\ is_finite (cost_at g c) = true.
Proof.
  intros [c0 [Hin Hfin]]. unfold next_cell.
  destruct (filter _ (predecessors i j)) as [|c rest] eqn:Hf.
  - assert (H : In c0 (filter (fun c => is_finite (cost_at g c))
                              (predecessors i j)))
      by (apply filter_In; now split).
    rewrite Hf in H. contradiction.
  - exists (argmin g c rest). split; [reflexivity|].
    apply (filter_In (fun c => is_finite (cost_at g c))).
    rewrite Hf. apply argmin_in.
Qed.

Lemma predecessors_inside (i j : nat) :
  predecessors (S i) (S j) = [(i, j); (i, S j); (S i, j)].
Proof. unfold predecessors. cbn. now rewrite !Nat.sub_0_r. Qed.

Lemma backtrack_origin (fuel : nat) (g : grid) (visited : list cell) :
  backtrack fuel g 0 0 visited = Some visited.
Proof. now destruct fuel. Qed.

Lemma backtrack_inside (fuel : nat) (g : grid) (i j : nat)
      (visited : list cell) :
  backtrack (S fuel) g (S i) (S j) visited =
  match next_cell g (S i) (S j) with
  | None => None
  | Some (i', j') => backtrack fuel g i' j' (visited ++ [(i, j)])
  end.
Proof. cbn. now rewrite !Nat.sub_0_r. Qed.

Section Walk.

Variables (x y : series) (bm : mask) (n1 n2 : nat) (g : grid).

Hypothesis g_rec :
  forall i j, i <= n1 -> j <= n2 -> at2 g i j = dtw_rec x y bm i j.

(** From a finite cell inside the grid the walk reaches the origin: it
    returns the cells it visited, the first being the cell it started from
    and the last being (0, 0), each a backward step from the one before. *)
Lemma backtrack_reaches_origin (fuel : nat) :
  forall (i j : nat) (visited : list cell),
    i < n1 -> j < n2 ->
    is_finite (at2 g (S i) (S j)) = true ->
    S i + S j <= fuel ->
    exists tail,
      backtrack fuel g (S i) (S j) visited = Some (visited ++ (i, j) :: tail) /\
      chain (fun a b => unit_step b a) ((i, j) :: tail) /\
      last ((i, j) :: tail) (0, 0) = (0, 0).
Proof.
  induction fuel as [|fuel IH]; intros i j visited Hi Hj Hfin Hfuel; [lia|].
  rewrite backtrack_inside.
  destruct (next_cell_some g (S i) (S j)) as [[i' j'] [Hnext [Hin Hc]]].
  { rewrite predecessors_inside.
    rewrite g_rec in Hfin by lia.
    destruct (dtw_rec_finite_pred _ _ _ _ _ Hfin) as [H|[H|H]];
      rewrite <- g_rec in H by lia.
    - exists (i, j). split; [now left | exact H].
    - exists (i, S j). split; [now right; left | exact H].
    - exists (S i, j). split; [now right; right; left | exact H]. }
  rewrite Hnext. rewrite predecessors_inside in Hin.
  unfold cost_at in Hc. cbn [fst snd] in Hc.
  assert (Hstep : forall a b,
             (a = i \/ S a = i) -> (b = j \/ S b = j) -> (a, b) <> (i, j) ->
             a < n1 -> b < n2 ->
             is_finite (at2 g (S a) (S b)) = true ->
             exists tail,
               backtrack fuel g (S a) (S b) (visited ++ [(i, j)]) =
               Some (visited ++ (i, j) :: tail) /\
               chain (fun a b => unit_step b a) ((i, j) :: tail) /\
               last ((i, j) :: tail) (0, 0) = (0, 0)).
  { intros a b Ha Hb Hne Han Hbn Hab.
    destruct (IH a b (visited ++ [(i, j)]) Han Hbn Hab) as [tail [Hb1 [Hb2 Hb3]]].
    { assert (a <> i \/ b <> j) as Hor
          by (destruct (Nat.eq_dec a i), (Nat.eq_dec b j);
              try (left; assumption); try (right; assumption); congruence).
      lia. }
    exists ((a, b) :: tail). split; [|split].
    - rewrite Hb1, <- app_assoc. reflexivity.
    - split; [|exact Hb2]. unfold unit_step. cbn [fst snd].
      repeat split; try lia. congruence.
    - exact Hb3. }
  assert (Horigin : i = 0 -> j = 0 ->
             exists tail,
               backtrack fuel g 0 0 (visited ++ [(i, j)]) =
               Some (visited ++ (i, j) :: tail) /\
               chain (fun a b => unit_step b a) ((i, j) :: tail) /\
               last ((i, j) :: tail) (0, 0) = (0, 0)).
  { intros -> ->. exists []. rewrite backtrack_origin. now cbn. }
  destruct Hin as [Heq|[Heq|[Heq|[]]]]; injection Heq as <- <-.
  - destruct i as [|a], j as [|b].
    + now apply Horigin.
    + rewrite g_rec, dtw_rec_0_S in Hc by lia. discriminate.
    + rewrite g_rec, dtw_rec_S_0 in Hc by lia. discriminate.
    + apply Hstep; try lia; try assumption. intro H. injection H. lia.
  - destruct i as [|a].
    + rewrite g_rec, dtw_rec_0_S in Hc by lia. discriminate.
    + apply Hstep; try lia; try assumption. intro H. injection H. lia.
  - destruct j as [|b].
    + rewrite g_rec, dtw_rec_S_0 in Hc by lia. discriminate.
    + apply Hstep; try lia; try assumption. intro H. injection H. lia.
Qed.

(** The path of a grid with a finite last cell. *)
Lemma compute_min_return_path_spec :
  shape g = (n1 + 1, n2 + 1) -> 1 <= n1 -> 1 <= n2 ->
  is_finite (at2 g n1 n2) = true ->
  exists p,
    compute_min_return_path g = Some p /\
    hd_error p = Some (0, 0) /\
    last p (0, 0) = (n1 - 1, n2 - 1) /\
    chain unit_step p.
Proof.
  intros Hs H1 H2 Hfin. unfold compute_min_return_path.
  assert (H0 := f_equal fst Hs). assert (H0' := f_equal snd Hs).
  cbn [shape fst snd] in H0, H0'. rewrite H0, H0', !Nat.add_sub.
  assert (Hex : exists i j, n1 = S i /\ n2 = S j)
    by (exists (n1 - 1), (n2 - 1); lia).
  destruct Hex as [i [j [Hn1 Hn2]]].
  rewrite Hn1, Hn2 in Hfin |- *.
  destruct (backtrack_reaches_origin (fuel := S i + S j) (i := i) (j := j) [])
    as [tail [Hb [Hchain Hlast]]]; try lia; try assumption.
  rewrite Hb. cbn [app]. exists (rev ((i, j) :: tail)).
  split; [reflexivity|]. split; [|split].
  - assert (Hhd : hd (0, 0) (rev ((i, j) :: tail)) = (0, 0))
      by (rewrite hd_rev; exact Hlast).
    destruct (rev ((i, j) :: tail)) as [|c p] eqn:Hrev.
    + apply (f_equal (@length cell)) in Hrev.
      rewrite length_rev in Hrev. discriminate.
    + cbn in Hhd. now rewrite Hhd.
  - rewrite last_rev. cbn [hd]. now rewrite !Nat.sub_succ, !Nat.sub_0_r.
  - now apply chain_rev.
Qed.

End Walk.

Lemma distance_with_path_valid (create_bounding_matrix : builder)
      (x y : series) (window : option Qc) (return_cost_matrix : bool)
      (d m1 m2 : nat) :
  has_shape x d m1 -> has_shape y d m2 -> 3 <= m1 -> 3 <= m2 ->
  let cost_matrix :=
    dtw_fill (average_of_slope x) (average_of_slope y)
             (create_bounding_matrix m1 m2 window) (m1 - 2) (m2 - 2)
             (init_grid (m1 - 2) (m2 - 2)) in
  let path := compute_min_return_path cost_matrix in
  outcome (distance_with_path create_bounding_matrix x y window
                              average_of_slope return_cost_matrix) =
  inr (if return_cost_matrix
       then PathDistanceCost path (last_cell cost_matrix) cost_matrix
       else PathDistance path (last_cell cost_matrix)).
Proof.
  intros Hx Hy Hm1 Hm2.
  destruct (derivative_valid Hx Hm1) as [Hx0 Hx1].
  destruct (derivative_valid Hy Hm2) as [Hy0 Hy1].
  unfold has_shape, shape in Hx, Hy.
  injection Hx as _ Hxm. injection Hy as _ Hym.
  cbv zeta. rewrite distance_with_path_unfold. cbv zeta. cbn [outcome snd].
  rewrite numba_ddtw_distance_alignment_path_unfold, fmap_outcome.
  rewrite _dtw_cost_matrix_ok by lia. cbn [outcome snd].
  now rewrite Hx1, Hy1, Hxm, Hym.
Qed.

(** C8. For valid series (same d, lengths at least 3), with n1 and n2 the
    lengths of the derivatives: if the band admits every cell of the
    derivative grid, as it does when no window is given, the distance is
    finite; and whenever the distance is finite, the distance-with-path
    entry point returns a path that starts at (0, 0), ends at
    (n1 - 1, n2 - 1), and whose consecutive cells differ by 0 or 1 in i and
    in j, and by 1 in at least one of them. *)
Theorem alignment_path_monotone (create_bounding_matrix : builder)
        (x y : series) (window : option Qc) (return_cost_matrix : bool)
        (d m1 m2 : nat) :
  has_shape x d m1 -> has_shape y d m2 -> 3 <= m1 -> 3 <= m2 ->
  let n1 := shape1 (average_of_slope x) in
  let n2 := shape1 (average_of_slope y) in
  let dist := distance create_bounding_matrix x y window average_of_slope in
  (full_on (create_bounding_matrix m1 m2 window) n1 n2 ->
   exists q, outcome dist = inr (Fin q)) /\
  (forall q, outcome dist = inr (Fin q) ->
   exists r p,
     outcome (distance_with_path create_bounding_matrix x y window
                                 average_of_slope return_cost_matrix) = inr r /\
     result_distance r = Fin q /\
     result_path r = Some p /\
     hd_error p = Some (0, 0) /\
     last p (0, 0) = (n1 - 1, n2 - 1) /\
     chain unit_step p).
Proof.
  intros Hx Hy Hm1 Hm2.
  destruct (derivative_valid Hx Hm1) as [_ Hx1].
  destruct (derivative_valid Hy Hm2) as [_ Hy1].
  cbv zeta. rewrite Hx1, Hy1.
  rewrite (distance_valid create_bounding_matrix window Hx Hy Hm1 Hm2).
  split.
  - intro Hfull.
    assert (Hfin := dtw_rec_finite_full
                      (average_of_slope x) (average_of_slope y)
                      Hfull (i := m1 - 3) (j := m2 - 3)).
    replace (S (m1 - 3)) with (m1 - 2) in Hfin by lia.
    replace (S (m2 - 3)) with (m2 - 2) in Hfin by lia.
    destruct (dtw_rec _ _ _ (m1 - 2) (m2 - 2)) as [q|].
    + now exists q.
    + assert (false = true) by (apply Hfin; lia). discriminate.
  - intros q Hq. injection Hq as Hq.
    rewrite (distance_with_path_valid create_bounding_matrix window
               return_cost_matrix Hx Hy Hm1 Hm2).
    cbv zeta.
    destruct (dtw_fill_correct (average_of_slope x) (average_of_slope y)
                (create_bounding_matrix m1 m2 window) (m1 - 2) (m2 - 2))
      as [Hs Hg].
    set (cost_matrix := dtw_fill _ _ _ _ _ _) in *.
    assert (Hlast : last_cell cost_matrix = Fin q).
    { unfold last_cell.
      assert (H0 := f_equal fst Hs). assert (H1 := f_equal snd Hs).
      cbn [shape fst snd] in H0, H1. rewrite H0, H1, !Nat.add_sub.
      rewrite Hg by lia. exact Hq. }
    destruct (compute_min_return_path_spec _ _ _ Hg Hs)
      as [p [Hp [Hhd [Hl Hc]]]]; try lia.
    { rewrite Hg by lia. now rewrite Hq. }
    exists (if return_cost_matrix
            then PathDistanceCost (compute_min_return_path cost_matrix)
                                  (last_cell cost_matrix) cost_matrix
            else PathDistance (compute_min_return_path cost_matrix)
                              (last_cell cost_matrix)), p.
    destruct return_cost_matrix; cbn [result_distance result_path];
      repeat split; assumption.
Qed.

Lemma alignment_path_monotone_witness :
  exists q,
    outcome (distance sakoe_chiba series_12345 series_132557 None
                      average_of_slope) = inr (Fin q).
Proof.
  apply (proj1 (alignment_path_monotone
                  sakoe_chiba None false
                  (x := series_12345) (y := series_132557)
                  (d := 1) (m1 := 5) (m2 := 6)
                  eq_refl eq_refl
                  (le_S _ _ (le_S _ _ (le_n 3)))
                  (le_S _ _ (le_S _ _ (le_S _ _ (le_n 3)))))).
  intros i j _ _. reflexivity.
Defined.

(** ** The concrete scenarios of the specification *)

Example derivative_of_12345 :
  show_series (average_of_slope series_12345) = [[1; 1; 1]%Q] /\
  show_series (average_of_slope_transform series_12345) = [[1; 1; 1]%Q].
Proof. split; vm_compute; reflexivity. Qed.

Example distance_of_12345_to_itself :
  show_path_result
    (distance_with_path sakoe_chiba series_12345 series_12345 None
                        average_of_slope false)
  = ([AllocBounding 5 5; AllocCost 4 4],
     inr (Some [(0, 0); (1, 1); (2, 2)], Some 0%Q)).
Proof. vm_compute. reflexivity. Qed.

Example distance_of_constant_series :
  show_series (average_of_slope series_11111) = [[0; 0; 0]%Q] /\
  show_distance
    (distance sakoe_chiba series_11111 series_11111 None average_of_slope)
  = ([AllocBounding 5 5; AllocCost 4 4], inr (Some 0%Q)).
Proof. split; vm_compute; reflexivity. Qed.

Example distance_of_unequal_lengths :
  show_path_result
    (distance_with_path sakoe_chiba series_12345 series_132557 None
                        average_of_slope false)
  = ([AllocBounding 5 6; AllocCost 4 5],
     inr (Some [(0, 0); (0, 1); (1, 2); (2, 3)], Some (23 # 8)%Q)).
Proof. vm_compute. reflexivity. Qed.

Example distance_of_mismatched_dimensions :
  show_distance
    (distance sakoe_chiba series_12345 series_2x5 None average_of_slope)
  = ([AllocBounding 5 5], inl ShapeError).
Proof. vm_compute. reflexivity. Qed.

Example distance_of_short_series :
  shape (average_of_slope series_12) = (1, 0) /\
  show_distance
    (distance sakoe_chiba series_12 series_12345 None average_of_slope)
  = ([AllocBounding 2 5], inl ValueError).
Proof. split; vm_compute; reflexivity. Qed.

(** * Further properties of the code *)

(** ** The derivative transform on its own *)

Lemma average_of_slope_transform_shape (X : series) :
  1 <= shape0 X ->
  shape (average_of_slope_transform X) = (shape0 X, shape1 X - 2).
Proof.
  intro Hd. rewrite average_of_slope_transform_rows. unfold rows, shape.
  cbn [array_of shape0 shape1]. rewrite !length_map, length_seq. f_equal.
  destruct (shape0 X) as [|d']; [lia|]. cbn [seq map].
  apply average_of_slope1_len.
Qed.

(** X1. A series of fewer than 3 timepoints is not rejected by the
    transform: [average_of_slope] returns an empty row (1-d input) or an
    array of shape (d, 0) (2-d input), and [average_of_slope_transform] an
    array of shape (d, 0) too when the series has a row. *)
Theorem derivative_of_short_series :
  (forall q : ndarray1 Qc, len q < 3 -> len (average_of_slope1 q) = 0) /\
  (forall x : series, shape1 x < 3 ->
     shape (average_of_slope x) = (shape0 x, 0) /\
     (1 <= shape0 x ->
      shape (average_of_slope_transform x) = (shape0 x, 0))).
Proof.
  split.
  - intros q Hq. rewrite average_of_slope1_len. lia.
  - intros x Hx. split.
    + now apply average_of_slope_short.
    + intro Hd. rewrite average_of_slope_transform_shape by exact Hd.
      f_equal. lia.
Qed.

Lemma derivative_of_short_series_witness :
  shape (average_of_slope series_12) = (shape0 series_12, 0).
Proof.
  assert (H : shape1 series_12 < 3) by (cbn; lia).
  exact (proj1 (proj2 derivative_of_short_series series_12 H)).
Defined.

(** X2. On a series with at least one row, the row-by-row transform
    [average_of_slope_transform] and [average_of_slope] applied to the
    whole 2-d array return the same array, whatever the length. *)
Theorem average_of_slope_transform_agrees (X : series) :
  1 <= shape0 X ->
  eq2 (average_of_slope_transform X) (average_of_slope X).
Proof.
  intro Hd. split.
  - now rewrite average_of_slope_transform_shape, average_of_slope_shape.
  - intros i j Hi Hj.
    assert (Hs := average_of_slope_transform_shape X Hd).
    assert (H0 := f_equal fst Hs). assert (H1 := f_equal snd Hs).
    cbn [shape fst snd] in H0, H1. rewrite H0 in Hi. rewrite H1 in Hj.
    rewrite average_of_slope_transform_rows. unfold rows.
    cbn [array_of at2]. rewrite map_map, nth_map_seq by exact Hi.
    rewrite average_of_slope1_at by (cbn [row len]; lia).
    rewrite average_of_slope_at by lia. reflexivity.
Qed.

Lemma average_of_slope_transform_agrees_witness :
  eq2 (average_of_slope_transform series_2x5) (average_of_slope series_2x5).
Proof.
  apply average_of_slope_transform_agrees. cbn. lia.
Defined.

(** ** The transform is local *)

(** X8. The derivative of a window of a row is the window of the
    derivative: for a 1-d array q and bounds 0 <= lo, hi,
    average_of_slope(q[lo:hi]) is average_of_slope(q)[lo:hi-2] (hi - 2
    taken as 0 below 2), bounds beyond the end of q included. *)
Theorem average_of_slope_window (q : ndarray1 Qc) (lo hi : nat) :
  eq1 (average_of_slope1
         (slice1 (Some (Z.of_nat lo)) (Some (Z.of_nat hi)) q))
      (slice1 (Some (Z.of_nat lo)) (Some (Z.of_nat (hi - 2)))
              (average_of_slope1 q)).
Proof.
  split.
  - rewrite average_of_slope1_len. cbn [slice1 len slice_start slice_stop].
    rewrite !clip_nonneg, average_of_slope1_len. lia.
  - intros i Hi. rewrite average_of_slope1_len in Hi.
    cbn [slice1 len slice_start slice_stop] in Hi.
    rewrite !clip_nonneg in Hi.
    rewrite average_of_slope1_at
      by (cbn [slice1 len slice_start slice_stop]; rewrite !clip_nonneg; lia).
    cbn [slice1 at1 slice_start slice_stop].
    rewrite !clip_nonneg, average_of_slope1_len.
    rewrite average_of_slope1_at by lia.
    replace (Nat.min lo (len q) + (i + 2))
      with (Nat.min lo (len q - 2) + i + 2) by lia.
    replace (Nat.min lo (len q) + (i + 1))
      with (Nat.min lo (len q - 2) + i + 1) by lia.
    replace (Nat.min lo (len q) + i)
      with (Nat.min lo (len q - 2) + i) by lia.
    reflexivity.
Qed.

Example window_of_132557 :
  map this
      (to_list (average_of_slope1
                  (slice1 (Some 1%Z) (Some 5%Z)
                          (row series_132557 0)))) = [0; 9 # 4]%Q /\
  map this (to_list (average_of_slope1 (row series_132557 0)))
  = [5 # 4; 0; 9 # 4; 1 # 2]%Q.
Proof. split; vm_compute; reflexivity. Qed.
